(** * go-nebulas p2p wire protocol: frame codec, stream handler, handshake,
      route discovery and broadcast

    A shallow embedding of [components/net/p2p/net_service.go] and
    [components/net/p2p/broadcast.go].  Go byte slices are [list byte], Go
    strings are byte sequences as well, [uint32] values are [Z] with the
    wrap-around written out, Go maps are [gmap]s. *)

From Stdlib Require Import ZArith Lia List.
From Stdlib.Strings Require Import Byte.
From stdpp Require Import base option list gmap strings fin_maps.

Local Open Scope Z_scope.

(** ** Bytes and Go slices *)

Module GoBytes.

#[global] Instance byte_eq_dec : EqDecision byte := Byte.byte_eq_dec.

Definition byte_to_Z (b : byte) : Z := Z.of_N (Byte.to_N b).

(** [byte(z)]: the conversion of an integer to a byte keeps the low 8 bits. *)
Definition byte_of_Z (z : Z) : byte :=
  match Byte.of_N (Z.to_N (z mod 256)) with
  | Some b => b
  | None => x00
  end.

(** [uint32(z)] *)
Definition wrap32 (z : Z) : Z := z mod 2^32.

(** A Go string, as the bytes it holds. *)
Definition gostring (s : string) : list byte := String.list_byte_of_string s.

(** [s[lo:hi]] for [lo <= hi <= len(s)]. *)
Definition slice (l : list byte) (lo hi : nat) : list byte :=
  take (hi - lo) (drop lo l).

(** The builtin [copy(dst[off:], src)]: overwrites [dst] from offset [off]
    with as many bytes of [src] as fit; [dst] keeps its length. *)
Definition copy_at (dst : list byte) (off : nat) (src : list byte) : list byte :=
  take off dst ++ take (length dst - off) src ++ drop (off + length src) dst.

(** [bytes.IndexByte(s, c)]: index of the first [c] in [s], or [-1]. *)
Fixpoint IndexByte (s : list byte) (c : byte) : Z :=
  match s with
  | [] => -1
  | b :: s' =>
      if Byte.eqb b c then 0
      else let i := IndexByte s' c in if i <? 0 then -1 else i + 1
  end.

End GoBytes.
Export GoBytes.

(** ** util/byteutils *)

Module byteutils.

(** Modelled from the spec: [util/byteutils] is not among the sources; the
    spec fixes the chain identifier, payload length and checksum as 4-byte
    big-endian fields, which is [binary.BigEndian] on a [uint32]. *)
Definition FromUint32 (v : Z) : list byte :=
  [ byte_of_Z (Z.shiftr v 24); byte_of_Z (Z.shiftr v 16);
    byte_of_Z (Z.shiftr v 8); byte_of_Z v ].

(** Modelled from the spec: the inverse reading of a 4-byte big-endian
    field; Go's [binary.BigEndian.Uint32] panics on a shorter slice, which
    [None] stands for. *)
Definition Uint32 (data : list byte) : option Z :=
  match data with
  | b0 :: b1 :: b2 :: b3 :: _ =>
      Some (Z.lor (Z.lor (Z.lor (Z.shiftl (byte_to_Z b0) 24)
                                (Z.shiftl (byte_to_Z b1) 16))
                         (Z.shiftl (byte_to_Z b2) 8))
                  (byte_to_Z b3))
  | _ => None
  end.

(** Modelled from the spec: [byteutils.Equal] compares two byte slices. *)
Definition Equal (a b : list byte) : bool := bool_decide (a = b).

End byteutils.

(** ** hash/crc32 (Go standard library, IEEE polynomial) *)

Module crc32.

Definition IEEE : Z := 0xedb88320.

(** One round of [simplePopulateTable]'s inner loop. *)
Definition shift1 (crc : Z) : Z :=
  if Z.testbit crc 0 then Z.lxor (Z.shiftr crc 1) IEEE else Z.shiftr crc 1.

(** [tab[i]] of [simpleMakeTable(IEEE)]. *)
Definition tab (i : Z) : Z := Nat.iter 8 shift1 i.

(** The loop body of [simpleUpdate]: [crc = tab[byte(crc)^v] ^ (crc >> 8)]. *)
Definition update1 (crc : Z) (v : byte) : Z :=
  Z.lxor (tab (Z.lxor (Z.land crc 255) (byte_to_Z v))) (Z.shiftr crc 8).

(** [simpleUpdate(crc, tab, p)], the complement being taken on 32 bits. *)
Definition simpleUpdate (crc : Z) (p : list byte) : Z :=
  Z.lxor (fold_left update1 p (Z.lxor crc 0xffffffff)) 0xffffffff.

Definition ChecksumIEEE (data : list byte) : Z := simpleUpdate 0 data.

End crc32.

(** ** The frame builder *)

(** MagicNumber the protocol magic number. *)
Definition MagicNumber : list byte := [x4e; x45; x42; x31].

Definition HELLO : list byte := gostring "hello".
Definition OK : list byte := gostring "ok".
Definition BYE : list byte := gostring "bye".
Definition SYNCROUTE : list byte := gostring "syncroute".
Definition NEWBLOCK : list byte := gostring "newblock".
Definition SYNCROUTEREPLY : list byte := gostring "resyncroute".

(** buildHeader build header information *)
Definition buildHeader (chainID : Z) (msgName : list byte) (version : byte)
    (dataLength dataChecksum : Z) : list byte :=
  let metaHeader := replicate 32 x00 in
  let msgNameByte := msgName in
  let metaHeader := copy_at metaHeader 0 MagicNumber in
  let metaHeader := copy_at metaHeader 4 (byteutils.FromUint32 chainID) in
  let metaHeader := copy_at metaHeader 11 [version] in
  let metaHeader := copy_at metaHeader 12 msgNameByte in
  let metaHeader := copy_at metaHeader 24 (byteutils.FromUint32 dataLength) in
  let metaHeader := copy_at metaHeader 28 (byteutils.FromUint32 dataChecksum) in
  metaHeader.

(** [(ns *NetService) buildData], on the two fields of [ns.node] it reads. *)
Definition buildData (chainID : Z) (version : byte) (data msgName : list byte)
    : list byte :=
  let dataChecksum := crc32.ChecksumIEEE data in
  let metaHeader :=
    buildHeader chainID msgName version
      (wrap32 (Z.of_nat (length data))) dataChecksum in
  let headerChecksum := crc32.ChecksumIEEE metaHeader in
  let metaHeader := metaHeader ++ byteutils.FromUint32 headerChecksum in
  let totalData := metaHeader ++ data in
  totalData.

Example crc32_check :
  crc32.ChecksumIEEE (gostring "123456789") = 0xcbf43926.
Proof. vm_compute. reflexivity. Qed.

Example buildData_hello :
  buildData 7 x01 HELLO HELLO =
  [x4e; x45; x42; x31; x00; x00; x00; x07; x00; x00; x00; x01;
   x68; x65; x6c; x6c; x6f; x00; x00; x00; x00; x00; x00; x00;
   x00; x00; x00; x05; x36; x10; xa6; x86] ++
  byteutils.FromUint32 (crc32.ChecksumIEEE (take 32 (buildData 7 x01 HELLO HELLO)))
  ++ HELLO.
Proof. vm_compute. reflexivity. Qed.

(** ** Collaborators outside the repository *)

Abbreviation PeerID := string (only parsing).
Abbreviation Multiaddr := string (only parsing).
Abbreviation StreamID := nat (only parsing).

(** go-libp2p-kbucket's routing table, reduced to the peers it lists.  The
    bucket layout and the XOR ranking are the library's own; [NearestPeers]
    is taken from the interface [External] below. *)
Module kbucket.

Definition ListPeers (rt : list PeerID) : list PeerID := rt.

(** [Update] moves a listed peer to the front and inserts an unlisted one. *)
Definition Update (p : PeerID) (rt : list PeerID) : list PeerID :=
  p :: filter (λ q, q ≠ p) rt.

Definition Remove (p : PeerID) (rt : list PeerID) : list PeerID :=
  filter (λ q, q ≠ p) rt.

(** [Find] answers the empty identity for an unlisted peer; no peer has the
    empty identity, so the comparison of the answer with [""] in the source
    is the test [is_Some] here. *)
Definition Find (rt : list PeerID) (p : PeerID) : option PeerID :=
  if bool_decide (p ∈ rt) then Some p else None.

End kbucket.

(** go-libp2p-peerstore's address book: per peer, the known addresses with
    the time-to-live each was given (in nanoseconds).  The passing of time,
    and with it the expiry of an entry, is outside the model. *)
Module peerstore.

Definition TempAddrTTL : Z := 10 * 10^9.
Definition PermanentAddrTTL : Z := 2^63 - 1.

Record PeerInfo := { ID : PeerID; Addrs : list Multiaddr }.

#[global] Instance PeerInfo_eq_dec : EqDecision PeerInfo.
Proof. solve_decision. Defined.

Fixpoint add1 (a : Multiaddr) (ttl : Z) (l : list (Multiaddr * Z))
    : list (Multiaddr * Z) :=
  match l with
  | [] => [(a, ttl)]
  | (a', t') :: l' =>
      if bool_decide (a' = a) then (a', Z.max t' ttl) :: l'
      else (a', t') :: add1 a ttl l'
  end.

(** [AddAddr(p, addr, ttl)]: nothing for [ttl <= 0]; a known address keeps
    the longer of the two lifetimes. *)
Definition AddAddr (p : PeerID) (a : Multiaddr) (ttl : Z)
    (ps : gmap string (list (string * Z))) : gmap string (list (string * Z)) :=
  if ttl <=? 0 then ps else <[p := add1 a ttl (default [] (ps !! p))]> ps.

Definition set1 (ttl : Z) (l : list (Multiaddr * Z)) (a : Multiaddr)
    : list (Multiaddr * Z) :=
  let l' := filter (λ e, e.1 ≠ a) l in
  if 0 <? ttl then l' ++ [(a, ttl)] else l'.

(** [SetAddrs(p, addrs, ttl)]: each listed address gets exactly [ttl], and is
    deleted for [ttl <= 0]. *)
Definition SetAddrs (p : PeerID) (addrs : list Multiaddr) (ttl : Z)
    (ps : gmap string (list (string * Z))) : gmap string (list (string * Z)) :=
  <[p := fold_left (set1 ttl) addrs (default [] (ps !! p))]> ps.

Definition AddrsOf (ps : gmap string (list (string * Z))) (p : PeerID)
    : list Multiaddr :=
  (default [] (ps !! p)).*1.

Definition GetPeerInfo (ps : gmap string (list (string * Z))) (p : PeerID)
    : PeerInfo :=
  {| ID := p; Addrs := AddrsOf ps p |}.

(** The lifetime under which [a] is recorded for [p], if it is. *)
Definition ttlOf (ps : gmap string (list (string * Z))) (p : PeerID)
    (a : Multiaddr) : option Z :=
  snd <$> List.find (λ e, bool_decide (e.1 = a)) (default [] (ps !! p)).

End peerstore.

(** What the handlers call and the sources do not define: the block codec
    ([proto.Unmarshal], [core.Block.FromProto], [core.Block.ToProto],
    [proto.Marshal]), [encoding/json] on peer-info lists and kbucket's
    nearest-peer ranking. *)
Class External := {
  pbBlock : Type;
  Block : Type;
  (** [proto.Unmarshal(data, pb)]: what [pb] holds afterwards, and whether
      an error was returned. *)
  proto_Unmarshal : list byte → pbBlock * bool;
  (** [block.FromProto(pb)]: the block afterwards, and whether it failed. *)
  Block_FromProto : pbBlock → Block * bool;
  (** [pb, _ := msg.ToProto(); data, err := proto.Marshal(pb)] *)
  Block_Marshal : Block → option (list byte);
  json_Marshal : list peerstore.PeerInfo → option (list byte);
  (** [json.Unmarshal(data, &sample)]: [sample] afterwards (the error is
      dropped by the source). *)
  json_Unmarshal : list byte → list peerstore.PeerInfo;
  NearestPeers : list PeerID → PeerID → nat → list PeerID;
}.

(** ** The node and the streams *)

(** Modelled from the spec: the constants [S_OK] and [S_NC] are declared with
    [Node], outside the sources; the spec has the two connection statuses
    Connected and Disconnected. *)
Inductive ConnStatus := S_OK | S_NC.

(** An [nnet.Stream]: the connection's remote end, what has arrived and is
    not yet read, and what has been written. *)
Record Stream := {
  RemotePeer : PeerID;
  RemoteMultiaddr : Multiaddr;
  inbound : list byte;
  (** the remote end closed or reset the stream: a short read fails
      instead of waiting *)
  closed : bool;
  (** whether [writer.Write] succeeds *)
  writable : bool;
  outbound : list byte;
}.

(** Modelled from the spec: [Node] is declared outside the sources; these
    are the fields the handlers read and write, with the node configuration
    of the spec (chain identifier, protocol version byte, maximum number of
    peers per discovery query). *)
Record Node := {
  id : PeerID;
  chainID : Z;
  version : byte;
  maxSyncNodes : nat;
  conn : gmap string ConnStatus;
  stream : gmap string nat;
  routeTable : list PeerID;
  peerstore : gmap string (list (string * Z));
}.

Definition with_conn (n : Node) (c : gmap string ConnStatus) : Node :=
  {| id := id n; chainID := chainID n; version := version n;
     maxSyncNodes := maxSyncNodes n; conn := c; stream := stream n;
     routeTable := routeTable n; peerstore := peerstore n |}.

Definition with_stream (n : Node) (s : gmap string nat) : Node :=
  {| id := id n; chainID := chainID n; version := version n;
     maxSyncNodes := maxSyncNodes n; conn := conn n; stream := s;
     routeTable := routeTable n; peerstore := peerstore n |}.

Definition with_routeTable (n : Node) (rt : list PeerID) : Node :=
  {| id := id n; chainID := chainID n; version := version n;
     maxSyncNodes := maxSyncNodes n; conn := conn n; stream := stream n;
     routeTable := rt; peerstore := peerstore n |}.

Definition with_peerstore (n : Node) (ps : gmap string (list (string * Z)))
    : Node :=
  {| id := id n; chainID := chainID n; version := version n;
     maxSyncNodes := maxSyncNodes n; conn := conn n; stream := stream n;
     routeTable := routeTable n; peerstore := ps |}.

(** ** The net service *)

(** Where a receive loop stands. *)
Inductive Resume `{External} :=
| AfterUnmarshal (pb : pbBlock)   (* line 164 done, line 166 next *)
| AfterFromProto (b : Block).     (* line 168 done, line 170 next *)

Inductive PC `{External} :=
| AtSelect                        (* at the [select] of the loop *)
| InDefault                       (* in the [default] case, before the reads *)
| OnQuitCh (k : Resume)           (* waiting in [ns.quitCh <- true] *)
| Resuming (k : Resume)           (* the send on [ns.quitCh] was received *)
| Ended                           (* left the loop *)
| Crashed.                        (* run-time panic *)

Record Goroutine `{External} := { gstream : StreamID; pc : PC }.

(** [NetService], with what its methods reach: the open streams (a stream
    is one object, whoever holds it), the streams the host would open on a
    dial ([host.NewStream]), the messages put to the dispatcher, the
    receive loops started by [streamHandler] and the senders waiting on the
    unbuffered [quitCh]. *)
Record NetService `{External} := {
  node : Node;
  streams : gmap nat Stream;
  host : gmap string Stream;
  dispatcher : list (list byte * Block);
  loops : list Goroutine;
  quitCh : list nat;
}.

Section Service.
Context `{External}.

Definition with_node (ns : NetService) (n : Node) : NetService :=
  {| node := n; streams := streams ns; host := host ns;
     dispatcher := dispatcher ns; loops := loops ns; quitCh := quitCh ns |}.

Definition with_streams (ns : NetService) (ss : gmap nat Stream) : NetService :=
  {| node := node ns; streams := ss; host := host ns;
     dispatcher := dispatcher ns; loops := loops ns; quitCh := quitCh ns |}.

Definition with_dispatcher (ns : NetService) (d : list (list byte * Block))
    : NetService :=
  {| node := node ns; streams := streams ns; host := host ns;
     dispatcher := d; loops := loops ns; quitCh := quitCh ns |}.

Definition with_loops (ns : NetService) (l : list Goroutine) : NetService :=
  {| node := node ns; streams := streams ns; host := host ns;
     dispatcher := dispatcher ns; loops := l; quitCh := quitCh ns |}.

Definition with_quitCh (ns : NetService) (q : list nat) : NetService :=
  {| node := node ns; streams := streams ns; host := host ns;
     dispatcher := dispatcher ns; loops := loops ns; quitCh := q |}.

(** *** Reading and writing a stream *)

Inductive ReadResult :=
| ReadOk (data : list byte) (s : Stream)
| ReadErr (s : Stream)            (* [io.ReadFull] returned an error *)
| ReadWait.                       (* [io.ReadFull] has not returned yet *)

Definition with_inbound (s : Stream) (i : list byte) : Stream :=
  {| RemotePeer := RemotePeer s; RemoteMultiaddr := RemoteMultiaddr s;
     inbound := i; closed := closed s; writable := writable s;
     outbound := outbound s |}.

Definition with_outbound (s : Stream) (o : list byte) : Stream :=
  {| RemotePeer := RemotePeer s; RemoteMultiaddr := RemoteMultiaddr s;
     inbound := inbound s; closed := closed s; writable := writable s;
     outbound := o |}.

(** [ReadUint32(reader, n)] reads exactly [n] bytes. *)
Definition ReadUint32 (s : Stream) (n : Z) : ReadResult :=
  if n <=? Z.of_nat (length (inbound s)) then
    ReadOk (take (Z.to_nat n) (inbound s))
           (with_inbound s (drop (Z.to_nat n) (inbound s)))
  else if closed s then ReadErr (with_inbound s [])
  else ReadWait.

(** [Write(writer, data)]: [None] is the error. *)
Definition Write (s : Stream) (data : list byte) : option Stream :=
  if writable s then Some (with_outbound s (outbound s ++ data)) else None.

(** *** verifyHeader *)

Inductive HeaderError := MagicNumberError | ChainIDError | VersionError.

(** What [verifyHeader] answers: [true], or [false] after logging which
    check failed. *)
Inductive Verdict := Verified | Rejected (e : HeaderError).

Definition verifyHeader (n : Node) (magicNumber chainID' version' : list byte)
    : Verdict :=
  if negb (byteutils.Equal MagicNumber magicNumber) then
    Rejected MagicNumberError
  else if negb (bool_decide (Some (chainID n) = byteutils.Uint32 chainID')) then
    Rejected ChainIDError
  else if negb (byteutils.Equal [version n] version') then
    Rejected VersionError
  else Verified.

(** *** The receive path of the stream handler (lines 93 to 130) *)

Record Header := {
  magicNumber : list byte;
  chainIDField : list byte;
  versionField : list byte;
  msgName : list byte;
  dataLength : list byte;
  dataChecksum : list byte;
}.

(** The header fields, sliced out by fixed offset. *)
Definition sliceHeader (dataHeader : list byte) : Header :=
  {| magicNumber := slice dataHeader 0 4;
     chainIDField := slice dataHeader 4 8;
     versionField := slice dataHeader 11 12;
     msgName := slice dataHeader 12 24;
     dataLength := slice dataHeader 24 28;
     dataChecksum := slice dataHeader 28 32 |}.

(** [index := bytes.IndexByte(msgName, 0); msgNameByte := msgName[0:index]]:
    the slice expression panics for a negative [index], which is [None]. *)
Definition msgNameStr (msgName : list byte) : option (list byte) :=
  let index := IndexByte msgName x00 in
  if index <? 0 then None else Some (slice msgName 0 (Z.to_nat index)).

Inductive Received :=
| RxWait                                      (* a read has not returned *)
| RxHeaderReadError (s : Stream)              (* line 96 *)
| RxPanic (s : Stream)                        (* line 110 *)
| RxRejected (e : HeaderError) (s : Stream)   (* line 115 *)
| RxDataReadError (s : Stream)                (* line 120 *)
| RxChecksumError (s : Stream)                (* line 126 *)
| RxFrame (name data : list byte) (s : Stream).

Definition receive (n : Node) (s : Stream) : Received :=
  match ReadUint32 s 36 with
  | ReadWait => RxWait
  | ReadErr s1 => RxHeaderReadError s1
  | ReadOk dataHeader s1 =>
      let h := sliceHeader dataHeader in
      match msgNameStr (msgName h) with
      | None => RxPanic s1
      | Some name =>
          match verifyHeader n (magicNumber h) (chainIDField h) (versionField h) with
          | Rejected e => RxRejected e s1
          | Verified =>
              match byteutils.Uint32 (dataLength h) with
              | None => RxPanic s1
              | Some len =>
                  match ReadUint32 s1 len with
                  | ReadWait => RxWait
                  | ReadErr s2 => RxDataReadError s2
                  | ReadOk data s2 =>
                      let dataChecksumA := crc32.ChecksumIEEE data in
                      if bool_decide (Some dataChecksumA = byteutils.Uint32 (dataChecksum h))
                      then RxFrame name data s2
                      else RxChecksumError s2
                  end
              end
          end
      end
  end.

(** *** Bye, Hello, SendMsg, SyncRoutes *)

(** Bye say bye to a peer, and close connection.  [None] is the panic of
    [addrs[0]] on an empty list. *)
Definition Bye (n : Node) (pid : PeerID) (addrs : list Multiaddr) : option Node :=
  let n := with_peerstore n (peerstore.SetAddrs pid addrs 0 (peerstore n)) in
  let n := with_routeTable n (kbucket.Remove pid (routeTable n)) in
  match addrs with
  | a :: _ => Some (with_conn n (<[a := S_NC]> (conn n)))
  | [] => None
  end.

Definition setStream (ns : NetService) (sid : StreamID) (s : Stream)
    : NetService :=
  with_streams ns (<[sid := s]> (streams ns)).

(** [Write] on the stream a handle stands for. *)
Definition writeTo (ns : NetService) (sid : StreamID) (data : list byte)
    : option NetService :=
  s ← streams ns !! sid;
  s' ← Write s data;
  Some (setStream ns sid s').

(** [ns.buildData(data, msgName)] *)
Definition nsBuildData (ns : NetService) (data msgName : list byte) : list byte :=
  buildData (chainID (node ns)) (version (node ns)) data msgName.

(** [ns.streamHandler(s)] starts the receive loop of [s] as a goroutine of
    its own and returns. *)
Definition streamHandler (ns : NetService) (sid : StreamID) : NetService :=
  with_loops ns (loops ns ++ [{| gstream := sid; pc := AtSelect |}]).

(** [node.host.NewStream(node.context, pid, ProtocolID)] *)
Definition NewStream (ns : NetService) (pid : PeerID)
    : NetService * option StreamID :=
  match host ns !! pid with
  | None => (ns, None)
  | Some s =>
      let sid := fresh (dom (streams ns)) in
      (setStream ns sid s, Some sid)
  end.

Inductive HelloError := NewStreamError | WrongPidAddrs | WriteError.

(** Hello say hello to a peer.  [None] is the [nil] error. *)
Definition Hello (ns : NetService) (pid : PeerID)
    : NetService * option HelloError :=
  let msgName := HELLO in
  let '(ns, stream) := NewStream ns pid in
  let addrs := peerstore.AddrsOf (peerstore (node ns)) pid in
  match stream with
  | None =>
      let n := node ns in
      let n := with_peerstore n (peerstore.SetAddrs pid addrs 0 (peerstore n)) in
      let n := with_routeTable n (kbucket.Remove pid (routeTable n)) in
      (with_node ns n, Some NewStreamError)
  | Some stream =>
      if (length addrs <? 1)%nat then (ns, Some WrongPidAddrs)
      else
        let data := msgName in
        let totalData := nsBuildData ns data msgName in
        match writeTo ns stream totalData with
        | None => (ns, Some WriteError)
        | Some ns => (streamHandler ns stream, None)
        end
  end.

(** How a call ended. *)
Inductive Completion := Returned | Panicked.

(** SendMsg send message to a peer *)
Definition SendMsg (ns : NetService) (msgName msg : list byte) (pid : PeerID)
    : NetService * Completion :=
  let n := node ns in
  let addrs := peerstore.AddrsOf (peerstore n) pid in
  if Z.of_nat (length addrs) <? 0 then (ns, Returned)
  else
    let data := msg in
    let totalData := nsBuildData ns data msgName in
    match addrs with
    | [] => (ns, Panicked)                     (* addrs[0] *)
    | a0 :: _ =>
        match stream n !! a0 with
        | None => (ns, Returned)
        | Some sid =>
            match writeTo ns sid totalData with
            | None => (ns, Returned)
            | Some ns => (ns, Returned)
            end
        end
    end.

(** SyncRoutes sync routing table from a peer *)
Definition SyncRoutes (ns : NetService) (pid : PeerID)
    : NetService * Completion :=
  let n := node ns in
  let addrs := peerstore.AddrsOf (peerstore n) pid in
  if Z.of_nat (length addrs) <? 0 then (ns, Returned)
  else
    let data := SYNCROUTE in
    let totalData := nsBuildData ns data SYNCROUTE in
    match addrs with
    | [] => (ns, Panicked)                     (* addrs[0] *)
    | a0 :: _ =>
        match stream n !! a0 with
        | None => (ns, Returned)
        | Some sid =>
            match writeTo ns sid totalData with
            | None => (ns, Returned)
            | Some ns => (ns, Returned)
            end
        end
    end.

(** *** The message switch of the stream handler (lines 132 to 239) *)

(** How one pass through the body of the loop ends. *)
Inductive Flow :=
| Continue                        (* the next iteration *)
| BreakHandleMsg                  (* [break HandleMsg] *)
| ReturnFn                        (* [return] *)
| PanicFlow                       (* run-time panic *)
| WaitRead                        (* a read has not returned *)
| SendQuit (k : Resume).          (* at [ns.quitCh <- true] *)

Definition byeAndBreak (ns : NetService) (pid : PeerID) (addrs : Multiaddr)
    : NetService * Flow :=
  match Bye (node ns) pid [addrs] with
  | Some n => (with_node ns n, BreakHandleMsg)
  | None => (ns, PanicFlow)
  end.

(** [ns.PutMessage(msg)] *)
Definition PutMessage (ns : NetService) (msg : list byte * Block) : NetService :=
  with_dispatcher ns (dispatcher ns ++ [msg]).

(** The NEWBLOCK case from line 170. *)
Definition newblockPut (ns : NetService) (block : Block) : NetService * Flow :=
  let msg := (NEWBLOCK, block) in
  (PutMessage ns msg, Continue).

(** The NEWBLOCK case from line 166. *)
Definition newblockFromProto (ns : NetService) (pb : pbBlock)
    : NetService * Flow :=
  let '(block, err) := Block_FromProto pb in
  if err then (ns, SendQuit (AfterFromProto block))
  else newblockPut ns block.

(** The NEWBLOCK case from line 160. *)
Definition newblock (ns : NetService) (data : list byte) : NetService * Flow :=
  let '(pb, err) := proto_Unmarshal data in
  if err then (ns, SendQuit (AfterUnmarshal pb))
  else newblockFromProto ns pb.

(** Where a loop goes on once its send on [quitCh] has been received. *)
Definition resume (ns : NetService) (k : Resume) : NetService * Flow :=
  match k with
  | AfterUnmarshal pb => newblockFromProto ns pb
  | AfterFromProto block => newblockPut ns block
  end.

(** The loop over [sample] of the SYNCROUTEREPLY case. *)
Fixpoint syncRouteReply (ns : NetService) (sample : list peerstore.PeerInfo)
    : NetService :=
  match sample with
  | [] => ns
  | c :: sample' =>
      let n := node ns in
      if bool_decide (is_Some (kbucket.Find (routeTable n) (peerstore.ID c)))
         || bool_decide (length (peerstore.Addrs c) = 0%nat)
      then syncRouteReply ns sample'
      else
        match peerstore.Addrs c with
        | [] => ns                             (* not reached *)
        | a0 :: _ =>
            (* Ping the peer. *)
            let n := with_peerstore n
                       (peerstore.AddAddr (peerstore.ID c) a0
                          peerstore.TempAddrTTL (peerstore n)) in
            let '(ns, err) := Hello (with_node ns n) (peerstore.ID c) in
            match err with
            | Some _ => syncRouteReply ns sample'
            | None =>
                let n := node ns in
                let n := with_peerstore n
                           (peerstore.AddAddr (peerstore.ID c) a0
                              peerstore.PermanentAddrTTL (peerstore n)) in
                (* Update the routing table. *)
                let n := with_routeTable n
                           (kbucket.Update (peerstore.ID c) (routeTable n)) in
                syncRouteReply (with_node ns n) sample'
            end
        end
  end.

(** The peer list of the SYNCROUTE case. *)
Fixpoint syncRoutePeerList (ps : gmap string (list (string * Z)))
    (peers : list PeerID) : list peerstore.PeerInfo :=
  match peers with
  | [] => []
  | p :: peers' =>
      let peerInfo := peerstore.GetPeerInfo ps p in
      if bool_decide (length (peerstore.Addrs peerInfo) = 0%nat)
      then syncRoutePeerList ps peers'
      else peerInfo :: syncRoutePeerList ps peers'
  end.

Definition dispatch (ns : NetService) (s : StreamID) (pid : PeerID)
    (addrs : Multiaddr) (name data : list byte) : NetService * Flow :=
  let n := node ns in
  if bool_decide (name = HELLO) then
    let okdata := OK in
    let totalData := nsBuildData ns okdata OK in
    match writeTo ns s totalData with
    | None => (ns, BreakHandleMsg)
    | Some ns =>
        let n := node ns in
        let n := with_stream n (<[addrs := s]> (stream n)) in
        let n := with_conn n (<[addrs := S_OK]> (conn n)) in
        let n := with_routeTable n (kbucket.Update pid (routeTable n)) in
        (with_node ns n, Continue)
    end
  else if bool_decide (name = OK) then
    let okstr := data in
    if bool_decide (okstr = OK) then
      let n := with_conn n (<[addrs := S_OK]> (conn n)) in
      let n := with_stream n (<[addrs := s]> (stream n)) in
      let n := with_routeTable n (kbucket.Update pid (routeTable n)) in
      (with_node ns n, Continue)
    else (ns, BreakHandleMsg)
  else if bool_decide (name = BYE) then (ns, Continue)
  else if bool_decide (name = NEWBLOCK) then newblock ns data
  else if bool_decide (name = SYNCROUTE) then
    let peers := NearestPeers (routeTable n) pid (maxSyncNodes n) in
    let peerList := syncRoutePeerList (peerstore n) peers in
    match json_Marshal peerList with
    | None => (ns, BreakHandleMsg)
    | Some data =>
        let totalData := nsBuildData ns data SYNCROUTEREPLY in
        match stream n !! addrs with
        | None => (ns, ReturnFn)
        | Some stream' =>
            match writeTo ns stream' totalData with
            | None => (ns, BreakHandleMsg)
            | Some ns =>
                let n := node ns in
                (with_node ns
                   (with_routeTable n (kbucket.Update pid (routeTable n))),
                 Continue)
            end
        end
    end
  else if bool_decide (name = SYNCROUTEREPLY) then
    let sample := json_Unmarshal data in
    (syncRouteReply ns sample, Continue)
  else (ns, Continue).

(** The [default] case of the [select]: one frame of stream [sid]. *)
Definition handleMsg (ns : NetService) (sid : StreamID) : NetService * Flow :=
  match streams ns !! sid with
  | None => (ns, PanicFlow)
  | Some s =>
      let pid := RemotePeer s in
      let addrs := RemoteMultiaddr s in
      match receive (node ns) s with
      | RxWait => (ns, WaitRead)
      | RxHeaderReadError s' => byeAndBreak (setStream ns sid s') pid addrs
      | RxPanic s' => (setStream ns sid s', PanicFlow)
      | RxRejected _ s' => byeAndBreak (setStream ns sid s') pid addrs
      | RxDataReadError s' => byeAndBreak (setStream ns sid s') pid addrs
      | RxChecksumError s' => (setStream ns sid s', BreakHandleMsg)
      | RxFrame name data s' => dispatch (setStream ns sid s') sid pid addrs name data
      end
  end.

(** *** The receive loops as goroutines *)

Definition pcOfFlow (f : Flow) : PC :=
  match f with
  | Continue => AtSelect
  | BreakHandleMsg | ReturnFn => Ended
  | PanicFlow => Crashed
  | WaitRead => InDefault
  | SendQuit k => OnQuitCh k
  end.

Definition setPc (ns : NetService) (i : nat) (p : PC) : NetService :=
  with_loops ns
    (alter (λ g, {| gstream := gstream g; pc := p |}) i (loops ns)).

(** The outcome of a pass through the body, recorded for goroutine [i]; a
    loop reaching [ns.quitCh <- true] queues on the channel. *)
Definition settle (i : nat) (r : NetService * Flow) : NetService :=
  let '(ns, f) := r in
  let ns := setPc ns i (pcOfFlow f) in
  match f with
  | SendQuit _ => with_quitCh ns (quitCh ns ++ [i])
  | _ => ns
  end.

Definition crashed (g : Goroutine) : bool :=
  match pc g with Crashed => true | _ => false end.

(** One scheduling step of goroutine [i]; [None] when it cannot move (a
    panic that is not recovered ends the process, and every goroutine).  At
    the [select], the receive from [quitCh] is taken when a sender waits
    (the longest-waiting one is served) and the [default] case otherwise. *)
Definition step (ns : NetService) (i : nat) : option NetService :=
  g ← loops ns !! i;
  if existsb crashed (loops ns) then None else
  match pc g with
  | AtSelect =>
      match quitCh ns with
      | j :: q =>
          gj ← loops ns !! j;
          match pc gj with
          | OnQuitCh k =>
              Some (setPc (setPc (with_quitCh ns q) j (Resuming k)) i Ended)
          | _ => None
          end
      | [] => Some (setPc ns i InDefault)
      end
  | InDefault =>
      match handleMsg ns (gstream g) with
      | (_, WaitRead) => None
      | r => Some (settle i r)
      end
  | Resuming k => Some (settle i (resume ns k))
  | OnQuitCh _ | Ended | Crashed => None
  end.

(** A schedule: the goroutines in the order they are run. *)
Fixpoint run (ns : NetService) (sched : list nat) : option NetService :=
  match sched with
  | [] => Some ns
  | i :: sched' => ns' ← step ns i; run ns' sched'
  end.

(** *** Broadcast *)

(** The loop of [Broadcast] over [allNode]: the calls of [SendMsg] handed to
    goroutines of their own, as (message name, payload, peer). *)
Fixpoint broadcastLoop (self : PeerID) (data : list byte)
    (allNode : list PeerID) : list (list byte * list byte * PeerID) :=
  match allNode with
  | [] => []
  | nodeID :: allNode' =>
      if bool_decide (self = nodeID) then broadcastLoop self data allNode'
      else (NEWBLOCK, data, nodeID) :: broadcastLoop self data allNode'
  end.

(** Broadcast broadcast block message *)
Definition Broadcast (ns : NetService) (block : Block)
    : list (list byte * list byte * PeerID) :=
  let n := node ns in
  match Block_Marshal block with
  | None => []
  | Some data =>
      let allNode := kbucket.ListPeers (routeTable n) in
      broadcastLoop (id n) data allNode
  end.

(** *** The local identity and the route table *)

(** The route table does not list [self], the local identity; the host opens
    no stream on a dial of it; and no stream, open or opened by the host on
    a dial, has it as its remote peer. *)
Definition SelfFree (self : PeerID) (ns : NetService) : Prop :=
  id (node ns) = self
  ∧ (self ∉ routeTable (node ns))
  ∧ host ns !! self = None
  ∧ (∀ sid s, streams ns !! sid = Some s → RemotePeer s ≠ self)
  ∧ (∀ p s, host ns !! p = Some s → RemotePeer s ≠ self).

End Service.

(** ** Concrete nodes and streams for the scenarios *)

Module Scenario.

(** A node of chain 7, protocol version 1, that knows nobody. *)
Definition nodeA : Node :=
  {| id := "QmNodeA"; chainID := 7; version := x01; maxSyncNodes := 20;
     conn := ∅; stream := ∅; routeTable := []; peerstore := ∅ |}.

(** A stream from peer B on which [bytes] have arrived. *)
Definition fromB (bytes : list byte) : Stream :=
  {| RemotePeer := "QmNodeB"; RemoteMultiaddr := "/ip4/10.0.0.2/tcp/51413";
     inbound := bytes; closed := false; writable := true; outbound := [] |}.

(** The name [a\x00b]: three bytes, the second one zero. *)
Definition nulName : list byte := [x61; x00; x62].

(** A payload of 2^32 bytes. *)
Definition hugePayload : list byte := replicate (Z.to_nat (2^32)) x00.

(** A twelve-byte name without a zero byte. *)
Definition longName : list byte := gostring "resyncroutes".

(** *** A small instance of the collaborators *)

(** The block codec: a block travels as one length-delimited field (tag
    [0x0a], a length byte, the bytes); anything else does not decode, and a
    field cut short leaves the bytes that were there in the message. *)
Definition toyUnmarshal (data : list byte) : list byte * bool :=
  match data with
  | x0a :: len :: body =>
      if bool_decide (Z.of_nat (length body) = byte_to_Z len)
      then (body, false) else (body, true)
  | _ => ([], true)
  end.

(** A block needs at least one byte. *)
Definition toyFromProto (pb : list byte) : list byte * bool :=
  (pb, bool_decide (pb = [])).

(** The block without bytes stands for the block that does not serialize
    ([proto.Marshal] answers [ErrNil] when [ToProto] gave no message). *)
Definition toyMarshal (b : list byte) : option (list byte) :=
  if bool_decide (b = []) then None
  else Some (x0a :: byte_of_Z (Z.of_nat (length b)) :: b).

(** Peer C and the local node A as discovery candidates. *)
Definition candidateC : peerstore.PeerInfo :=
  {| peerstore.ID := "QmNodeC";
     peerstore.Addrs := ["/ip4/10.0.0.3/tcp/51413"] |}.

Definition candidateA : peerstore.PeerInfo :=
  {| peerstore.ID := "QmNodeA";
     peerstore.Addrs := ["/ip4/10.0.0.1/tcp/51413"] |}.

(** Two reply texts and the peer lists they stand for. *)
Definition replyC : list byte := gostring "[QmNodeC@/ip4/10.0.0.3/tcp/51413]".
Definition replyA : list byte := gostring "[QmNodeA@/ip4/10.0.0.1/tcp/51413]".

Definition toyJsonUnmarshal (data : list byte) : list peerstore.PeerInfo :=
  if bool_decide (data = replyC) then [candidateC]
  else if bool_decide (data = replyA) then [candidateA]
  else [].

Definition toyJsonMarshal (l : list peerstore.PeerInfo) : option (list byte) :=
  if bool_decide (l = [candidateC]) then Some replyC
  else if bool_decide (l = [candidateA]) then Some replyA
  else Some (gostring "[]").

#[export] Instance toy : External :=
  {| pbBlock := list byte;
     Block := list byte;
     proto_Unmarshal := toyUnmarshal;
     Block_FromProto := toyFromProto;
     Block_Marshal := toyMarshal;
     json_Marshal := toyJsonMarshal;
     json_Unmarshal := toyJsonUnmarshal;
     NearestPeers := λ rt _ k, take k rt |}.

(** A service around node A with one open stream, number 0, from peer B, on
    which [bytes] have arrived. *)
Definition serviceA (bytes : list byte) : NetService :=
  {| node := nodeA; streams := {[ 0%nat := fromB bytes ]};
     host := ∅; dispatcher := []; loops := []; quitCh := [] |}.

(** The stream the host opens on a dial to peer C: nothing has arrived on
    it, and writes to it succeed or not. *)
Definition toC (w : bool) : Stream :=
  {| RemotePeer := "QmNodeC"; RemoteMultiaddr := "/ip4/10.0.0.3/tcp/51413";
     inbound := []; closed := false; writable := w; outbound := [] |}.

(** Node A with a short-lived address of peer C in its address book. *)
Definition nodeAknowsC : Node :=
  with_peerstore nodeA
    {[ "QmNodeC" := [("/ip4/10.0.0.3/tcp/51413", peerstore.TempAddrTTL)] ]}.

(** A service around it, without open streams, whose host can dial C. *)
Definition dialing (w : bool) : NetService :=
  {| node := nodeAknowsC; streams := ∅; host := {[ "QmNodeC" := toC w ]};
     dispatcher := []; loops := []; quitCh := [] |}.

(** A service around node A whose route table lists B, A itself and C. *)
Definition serviceABC : NetService :=
  {| node := with_routeTable nodeA ["QmNodeB"; "QmNodeA"; "QmNodeC"];
     streams := ∅; host := ∅; dispatcher := []; loops := []; quitCh := [] |}.

(** The service around node A with the receive loop of stream 0 running. *)
Definition listening (bytes : list byte) : NetService :=
  with_loops (serviceA bytes) [{| gstream := 0%nat; pc := AtSelect |}].

(** The stream a host that dials its own identity would open. *)
Definition toA : Stream :=
  {| RemotePeer := "QmNodeA"; RemoteMultiaddr := "/ip4/10.0.0.1/tcp/51413";
     inbound := []; closed := false; writable := true; outbound := [] |}.

(** The same service with a host that can dial the local identity. *)
Definition selfDialing (bytes : list byte) : NetService :=
  {| node := nodeA; streams := {[ 0%nat := fromB bytes ]};
     host := {[ "QmNodeA" := toA ]}; dispatcher := [];
     loops := [{| gstream := 0%nat; pc := AtSelect |}]; quitCh := [] |}.

(** A stream from peer C on which [bytes] have arrived. *)
Definition fromC (bytes : list byte) : Stream :=
  {| RemotePeer := "QmNodeC"; RemoteMultiaddr := "/ip4/10.0.0.3/tcp/51413";
     inbound := bytes; closed := false; writable := true; outbound := [] |}.

(** A block payload cut short: five bytes announced, one present. *)
Definition cutBlock : list byte := [x0a; x05; x2a].

(** Node A with two connections, each with its receive loop: on stream 0,
    from peer B, a NEWBLOCK frame with the cut payload has arrived; on
    stream 1, from peer C, a BYE frame. *)
Definition twoConnections : NetService :=
  {| node := nodeA;
     streams := {[ 0%nat := fromB (buildData 7 x01 cutBlock NEWBLOCK);
                   1%nat := fromC (buildData 7 x01 BYE BYE) ]};
     host := ∅; dispatcher := [];
     loops := [{| gstream := 0%nat; pc := AtSelect |};
               {| gstream := 1%nat; pc := AtSelect |}];
     quitCh := [] |}.

(** Node A with peer B registered: B is listed in the route table, its
    address is in the address book and marked connected, and stream 0 is
    recorded as the send handle of that address. *)
Definition nodeAwithB : Node :=
  {| id := "QmNodeA"; chainID := 7; version := x01; maxSyncNodes := 20;
     conn := {[ "/ip4/10.0.0.2/tcp/51413" := S_OK ]};
     stream := {[ "/ip4/10.0.0.2/tcp/51413" := 0%nat ]};
     routeTable := ["QmNodeB"];
     peerstore :=
       {[ "QmNodeB" :=
            [("/ip4/10.0.0.2/tcp/51413", peerstore.PermanentAddrTTL)] ]} |}.

(** The service around it, with the receive loop of stream 0 running. *)
Definition connected (bytes : list byte) : NetService :=
  {| node := nodeAwithB; streams := {[ 0%nat := fromB bytes ]};
     host := ∅; dispatcher := [];
     loops := [{| gstream := 0%nat; pc := AtSelect |}]; quitCh := [] |}.

(** The stream from peer B after B has hung up. *)
Definition hungUp (bytes : list byte) : Stream :=
  {| RemotePeer := "QmNodeB"; RemoteMultiaddr := "/ip4/10.0.0.2/tcp/51413";
     inbound := bytes; closed := true; writable := true; outbound := [] |}.

(** The registered connection of peer B, after B has hung up. *)
Definition disconnected (bytes : list byte) : NetService :=
  {| node := nodeAwithB; streams := {[ 0%nat := hungUp bytes ]};
     host := ∅; dispatcher := [];
     loops := [{| gstream := 0%nat; pc := AtSelect |}]; quitCh := [] |}.

(** A BYE frame whose payload was altered in transit ([byf] for [bye]). *)
Definition alteredFrame : list byte :=
  take 36 (buildData 7 x01 BYE BYE) ++ gostring "byf".

(** A BYE frame under a twelve-byte name whose magic number reads [NEB2]. *)
Definition badMagicFrame : list byte :=
  gostring "NEB2" ++ drop 4 (buildData 7 x01 BYE longName).

(** Node A with a route table that lists A itself, and the receive loop of
    the stream from peer B running. *)
Definition listedSelf (bytes : list byte) : NetService :=
  {| node := with_routeTable nodeA ["QmNodeA"];
     streams := {[ 0%nat := fromB bytes ]};
     host := ∅; dispatcher := [];
     loops := [{| gstream := 0%nat; pc := AtSelect |}]; quitCh := [] |}.

(** Node A with the receive loop of the stream from peer B running and a
    host that can dial peer C. *)
Definition discovering (bytes : list byte) : NetService :=
  {| node := nodeA; streams := {[ 0%nat := fromB bytes ]};
     host := {[ "QmNodeC" := toC true ]}; dispatcher := [];
     loops := [{| gstream := 0%nat; pc := AtSelect |}]; quitCh := [] |}.

(** What peer B sends in a session: its HELLO, the OK to a HELLO of node A,
    a SYNCROUTE, and a SYNCROUTEREPLY that names peer C. *)
Definition session : list byte :=
  buildData 7 x01 HELLO HELLO ++ buildData 7 x01 OK OK
  ++ buildData 7 x01 SYNCROUTE SYNCROUTE
  ++ buildData 7 x01 replyC SYNCROUTEREPLY.

End Scenario.

(** ** nf/nvm: the modules of a contract *)

#[global] Instance byte_countable : Countable byte :=
  inj_countable Byte.to_N Byte.of_N Byte.of_to_N.

Module nvm.

(** [JSLibRootName] *)
Definition JSLibRootName : list byte := gostring "lib/".

(** [strings.Split(s, "/")]: the pieces of [s] between the slashes, one more
    than there are slashes. *)
Fixpoint Split (s : list byte) : list (list byte) :=
  match s with
  | [] => [[]]
  | b :: s' =>
      if bool_decide (b = x2f) then [] :: Split s'
      else match Split s' with
           | p :: ps => (b :: p) :: ps
           | [] => [[b]]
           end
  end.

(** [strings.Join(paths, "/")] *)
Fixpoint Join (paths : list (list byte)) : list byte :=
  match paths with
  | [] => []
  | [p] => p
  | p :: ps => p ++ x2f :: Join ps
  end.

(** The body of the loop of [reformatModuleID]. *)
Definition reformatStep (paths : list (list byte)) (p : list byte)
    : list (list byte) :=
  if bool_decide (length p = 0%nat) || bool_decide (p = gostring ".")
  then paths
  else if bool_decide (p = gostring "..") && bool_decide (0 < length paths)%nat
  then take (length paths - 1) paths
  else paths ++ [p].

Definition reformatModuleID (id : list byte) : list byte :=
  let paths := fold_left reformatStep (Split id) [] in
  Join paths.

(** The components [reformatModuleID] keeps: none is empty, none is [.],
    none holds a slash, and [..] stands in the first place or nowhere. *)
Definition kept (paths : list (list byte)) : Prop :=
  Forall (λ p, p ≠ [] ∧ p ≠ gostring "." ∧ x2f ∉ p) paths
  ∧ ∀ i, paths !! S i ≠ Some (gostring "..").

(** [pathRe.MatchString(id)] for [pathRe = ^\.{0,2}/]: at most two dots,
    then a slash, at the start. *)
Definition pathRe_MatchString (id : list byte) : bool :=
  match id with
  | x2f :: _ => true
  | x2e :: x2f :: _ => true
  | x2e :: x2e :: x2f :: _ => true
  | _ => false
  end.

(** Module module structure. *)
Record Module' := {
  id : list byte;
  source : list byte;
  lineOffset : Z;
}.

(** NewModule create new module and return it. *)
Definition NewModule (id source : list byte) (lineOffset : Z) : Module' :=
  let id :=
    if negb (pathRe_MatchString id) then gostring "lib/" ++ id else id in
  let id := reformatModuleID id in
  {| id := id; source := source; lineOffset := lineOffset |}.

(** NewModules create new modules and return it. *)
Definition NewModules : gmap (list byte) Module' := ∅.

(** Add add source to module. *)
Definition Add (ms : gmap (list byte) Module') (m : Module')
    : gmap (list byte) Module' :=
  <[id m := m]> ms.

(** Get get module from Modules by id; [None] is [nil]. *)
Definition Get (ms : gmap (list byte) Module') (id : list byte)
    : option Module' :=
  ms !! id.

End nvm.

(** * Properties *)

(** ** Bytes, 32-bit fields and the checksum *)

Lemma byte_to_Z_range (b : byte) : 0 <= byte_to_Z b < 256.
Proof.
  unfold byte_to_Z. pose proof (Byte.to_N_bounded b). lia.
Qed.

Lemma byte_to_of_Z (z : Z) : byte_to_Z (byte_of_Z z) = z mod 256.
Proof.
  unfold byte_to_Z, byte_of_Z.
  assert (Hr : 0 <= z mod 256 < 256) by (apply Z.mod_pos_bound; lia).
  destruct (Byte.of_N (Z.to_N (z mod 256))) as [b|] eqn:E.
  - apply Byte.to_of_N in E. rewrite E. lia.
  - apply Byte.of_N_None_iff in E. lia.
Qed.

Lemma byte_of_to_Z (b : byte) : byte_of_Z (byte_to_Z b) = b.
Proof.
  unfold byte_of_Z. rewrite Z.mod_small by apply byte_to_Z_range.
  unfold byte_to_Z. rewrite N2Z.id, Byte.of_to_N. reflexivity.
Qed.

Lemma byte_eqb_neq (a b : byte) : a ≠ b → Byte.eqb a b = false.
Proof.
  intros Hne. destruct (Byte.eqb a b) eqn:E; [|reflexivity].
  apply Byte.byte_dec_bl in E. contradiction.
Qed.

Lemma testbit_byte_high (b : byte) (n : Z) :
  8 <= n → Z.testbit (byte_to_Z b) n = false.
Proof.
  intros Hn. pose proof (byte_to_Z_range b) as Hb.
  rewrite <- (Z.mod_small (byte_to_Z b) (2^8)) by (change (2^8) with 256; lia).
  apply Z.mod_pow2_bits_high. lia.
Qed.

Lemma testbit_u32_high (v n : Z) :
  0 <= v < 2^32 → 32 <= n → Z.testbit v n = false.
Proof.
  intros Hv Hn. rewrite <- (Z.mod_small v (2^32)) by lia.
  apply Z.mod_pow2_bits_high. lia.
Qed.

Lemma testbit_byte_of_shiftr (v k n : Z) :
  0 <= k → 0 <= n →
  Z.testbit (byte_to_Z (byte_of_Z (Z.shiftr v k))) n =
  if n <? 8 then Z.testbit v (n + k) else false.
Proof.
  intros Hk Hn. rewrite byte_to_of_Z. change 256 with (2^8).
  destruct (n <? 8) eqn:E.
  - apply Z.ltb_lt in E. rewrite Z.mod_pow2_bits_low by lia.
    rewrite Z.shiftr_spec by lia. reflexivity.
  - apply Z.ltb_ge in E. apply Z.mod_pow2_bits_high. lia.
Qed.

(** Reading back a field written by [FromUint32]. *)
Lemma Uint32_FromUint32 (v : Z) (l : list byte) :
  0 <= v < 2^32 → byteutils.Uint32 (byteutils.FromUint32 v ++ l) = Some v.
Proof.
  intros Hv. unfold byteutils.FromUint32, byteutils.Uint32. simpl app.
  f_equal. apply Z.bits_inj'. intros n Hn.
  rewrite !Z.lor_spec, !Z.shiftl_spec by lia.
  rewrite <- (Z.shiftr_0_r v) at 4.
  destruct (Z.ltb_spec n 8).
  { rewrite (Z.testbit_neg_r _ (n - 24)), (Z.testbit_neg_r _ (n - 16)),
      (Z.testbit_neg_r _ (n - 8)) by lia.
    rewrite testbit_byte_of_shiftr by lia.
    destruct (Z.ltb_spec n 8); [|lia]. simpl. f_equal. lia. }
  destruct (Z.ltb_spec n 16).
  { rewrite (Z.testbit_neg_r _ (n - 24)), (Z.testbit_neg_r _ (n - 16)) by lia.
    rewrite !testbit_byte_of_shiftr by lia.
    destruct (Z.ltb_spec (n - 8) 8); [|lia].
    destruct (Z.ltb_spec n 8); [lia|]. simpl. rewrite orb_false_r.
    f_equal. lia. }
  destruct (Z.ltb_spec n 24).
  { rewrite (Z.testbit_neg_r _ (n - 24)) by lia.
    rewrite !testbit_byte_of_shiftr by lia.
    destruct (Z.ltb_spec (n - 16) 8); [|lia].
    destruct (Z.ltb_spec (n - 8) 8); [lia|].
    destruct (Z.ltb_spec n 8); [lia|]. simpl. rewrite !orb_false_r.
    f_equal. lia. }
  rewrite !testbit_byte_of_shiftr by lia.
  destruct (Z.ltb_spec (n - 16) 8); [lia|].
  destruct (Z.ltb_spec (n - 8) 8); [lia|].
  destruct (Z.ltb_spec n 8); [lia|]. rewrite !orb_false_r.
  destruct (Z.ltb_spec (n - 24) 8).
  - f_equal. lia.
  - symmetry. apply testbit_u32_high; lia.
Qed.

Lemma FromUint32_length (v : Z) : length (byteutils.FromUint32 v) = 4%nat.
Proof. reflexivity. Qed.

Lemma lxor_range (k a b : Z) :
  0 <= k → 0 <= a < 2^k → 0 <= b < 2^k → 0 <= Z.lxor a b < 2^k.
Proof.
  intros Hk Ha Hb.
  assert (Hnn : 0 <= Z.lxor a b) by (apply Z.lxor_nonneg; lia).
  split; [exact Hnn|].
  destruct (Z.eq_dec (Z.lxor a b) 0) as [->|Hne]; [lia|].
  assert (Hk0 : 0 < k).
  { destruct (Z.eq_dec k 0) as [->|]; [|lia]. exfalso. apply Hne.
    assert (a = 0) by (simpl in Ha; lia). assert (b = 0) by (simpl in Hb; lia).
    subst. reflexivity. }
  apply Z.log2_lt_pow2; [lia|].
  pose proof (Z.log2_lxor a b ltac:(lia) ltac:(lia)) as Hl.
  assert (Hlog : ∀ x, 0 <= x < 2^k → Z.log2 x < k).
  { intros x Hx. destruct (Z.eq_dec x 0) as [->|]; [simpl; lia|].
    apply Z.log2_lt_pow2; lia. }
  pose proof (Hlog a Ha). pose proof (Hlog b Hb). lia.
Qed.

Lemma shiftr_range (k a n : Z) :
  0 <= n → 0 <= a < 2^k → 0 <= Z.shiftr a n < 2^k.
Proof.
  intros Hn Ha. rewrite Z.shiftr_div_pow2 by lia.
  assert (0 < 2^n) by (apply Z.pow_pos_nonneg; lia).
  split; [apply Z.div_pos; lia|].
  apply Z.le_lt_trans with a; [|lia].
  apply Z.div_le_upper_bound; [lia|]. nia.
Qed.

Module crc32_facts.

Lemma shift1_range (c : Z) : 0 <= c < 2^32 → 0 <= crc32.shift1 c < 2^32.
Proof.
  intros Hc. unfold crc32.shift1.
  pose proof (shiftr_range 32 c 1 ltac:(lia) Hc).
  destruct (Z.testbit c 0); [|assumption].
  apply lxor_range; [lia|assumption|]. unfold crc32.IEEE. lia.
Qed.

Lemma tab_range (i : Z) : 0 <= i < 2^32 → 0 <= crc32.tab i < 2^32.
Proof.
  intros Hi. unfold crc32.tab. simpl Nat.iter.
  do 8 apply shift1_range. exact Hi.
Qed.

Lemma update1_range (c : Z) (v : byte) :
  0 <= c < 2^32 → 0 <= crc32.update1 c v < 2^32.
Proof.
  intros Hc. unfold crc32.update1.
  apply lxor_range; [lia| |apply shiftr_range; lia].
  apply tab_range.
  assert (0 <= Z.lxor (Z.land c 255) (byte_to_Z v) < 2^8); [|lia].
  apply lxor_range; [lia| |pose proof (byte_to_Z_range v); lia].
  change 255 with (Z.ones 8). rewrite Z.land_ones by lia.
  apply Z.mod_pos_bound. lia.
Qed.

Lemma fold_range (p : list byte) (c : Z) :
  0 <= c < 2^32 → 0 <= fold_left crc32.update1 p c < 2^32.
Proof.
  revert c. induction p as [|v p IH]; intros c Hc; simpl; [exact Hc|].
  apply IH, update1_range, Hc.
Qed.

(** The checksum is a [uint32]. *)
Lemma ChecksumIEEE_range (data : list byte) :
  0 <= crc32.ChecksumIEEE data < 2^32.
Proof.
  unfold crc32.ChecksumIEEE, crc32.simpleUpdate.
  apply lxor_range; [lia| |lia]. apply fold_range.
  change (0 <= 4294967295 < 4294967296). lia.
Qed.

End crc32_facts.

(** ** The frame codec *)

Lemma copy_at_length (dst : list byte) (off : nat) (src : list byte) :
  (off ≤ length dst)%nat → length (copy_at dst off src) = length dst.
Proof.
  intros Hoff. unfold copy_at.
  rewrite !length_app, !length_take, length_drop. lia.
Qed.

Lemma take_copy_at (k : nat) (dst : list byte) (off : nat) (src : list byte) :
  (k ≤ off ≤ length dst)%nat → take k (copy_at dst off src) = take k dst.
Proof.
  intros Hk. unfold copy_at.
  rewrite take_app_le by (rewrite length_take; lia).
  rewrite take_take. f_equal. lia.
Qed.

Lemma copy_at_length32 (dst : list byte) (off : nat) (src : list byte) :
  length dst = 32%nat → (off ≤ 32)%nat → length (copy_at dst off src) = 32%nat.
Proof. intros Hd Hoff. rewrite copy_at_length; lia. Qed.

Ltac length32 :=
  repeat (apply copy_at_length32; [|lia]); apply length_replicate.

Lemma buildHeader_length (c : Z) (name : list byte) (v : byte) (len crc : Z) :
  length (buildHeader c name v len crc) = 32%nat.
Proof. unfold buildHeader. length32. Qed.

(** The 12-byte name field of a built header: the name, cut at 12 bytes,
    and zeros after a shorter one. *)
Lemma msgName_buildHeader (c : Z) (name : list byte) (v : byte) (len crc : Z)
    (tail : list byte) :
  msgName (sliceHeader (buildHeader c name v len crc ++ tail)) =
  take 12 name ++ replicate (12 - length name) x00.
Proof.
  unfold sliceHeader, msgName, slice.
  rewrite take_drop_commute.
  rewrite take_app_le by (rewrite buildHeader_length; lia).
  unfold buildHeader.
  set (h := copy_at (copy_at (copy_at _ 0 _) 4 _) 11 _).
  assert (Hh : length h = 32%nat) by (unfold h; length32).
  assert (Hd : drop 12 h = replicate 20 x00) by reflexivity.
  rewrite (take_copy_at _ _ 28)
    by (rewrite !copy_at_length32; rewrite ?copy_at_length32; lia).
  rewrite (take_copy_at _ _ 24) by (rewrite copy_at_length32; lia).
  unfold copy_at. rewrite Hh.
  change (12 + (24 - 12))%nat with 24%nat. change (32 - 12)%nat with 20%nat.
  rewrite take_app, take_take, length_take, Hh.
  change (24 `min` 12)%nat with 12%nat. change (24 - 12 `min` 32)%nat with 12%nat.
  rewrite drop_app_length' by (rewrite length_take; lia).
  rewrite take_app, length_take, take_take.
  change (12 `min` 20)%nat with 12%nat.
  f_equal.
  rewrite <- (drop_drop h), Hd, drop_replicate, take_replicate.
  f_equal. lia.
Qed.

Lemma slice_app_l (l tail : list byte) (lo hi : nat) :
  (hi ≤ length l)%nat → slice (l ++ tail) lo hi = slice l lo hi.
Proof.
  intros Hhi. unfold slice. rewrite drop_app.
  apply take_app_le. rewrite length_drop. lia.
Qed.

Lemma slice_copy_at_below (dst src : list byte) (off lo hi : nat) :
  (hi ≤ off ≤ length dst)%nat →
  slice (copy_at dst off src) lo hi = slice dst lo hi.
Proof.
  intros Hhi. unfold slice.
  destruct (decide (lo ≤ hi)%nat) as [Hle|Hgt].
  - rewrite !take_drop_commute. replace (lo + (hi - lo))%nat with hi by lia.
    rewrite take_copy_at by lia. reflexivity.
  - replace (hi - lo)%nat with 0%nat by lia. reflexivity.
Qed.

Lemma slice_copy_at_eq (dst src : list byte) (off : nat) :
  (off + length src ≤ length dst)%nat →
  slice (copy_at dst off src) off (off + length src) = src.
Proof.
  intros Hfit. unfold slice, copy_at.
  rewrite drop_app_length' by (rewrite length_take; lia).
  replace (off + length src - off)%nat with (length src) by lia.
  rewrite (take_ge src) by lia. apply take_app_length.
Qed.

Lemma sliceHeader_buildHeader (c : Z) (name : list byte) (v : byte) (len crc : Z)
    (tail : list byte) :
  sliceHeader (buildHeader c name v len crc ++ tail) =
  {| magicNumber := MagicNumber;
     chainIDField := byteutils.FromUint32 c;
     versionField := [v];
     msgName := take 12 name ++ replicate (12 - length name) x00;
     dataLength := byteutils.FromUint32 len;
     dataChecksum := byteutils.FromUint32 crc |}.
Proof.
  pose proof (msgName_buildHeader c name v len crc tail) as Hname.
  unfold sliceHeader in *. cbn [msgName] in Hname. rewrite Hname. clear Hname.
  rewrite !(slice_app_l (buildHeader c name v len crc))
    by (rewrite buildHeader_length; lia).
  unfold buildHeader.
  set (h := copy_at (copy_at (copy_at _ 0 _) 4 _) 11 _).
  assert (Hh : length h = 32%nat) by (unfold h; length32).
  set (x := copy_at h 12 name).
  assert (Hx : length x = 32%nat) by (unfold x; apply copy_at_length32; lia).
  set (y := copy_at x 24 _).
  assert (Hy : length y = 32%nat) by (unfold y; apply copy_at_length32; lia).
  f_equal.
  - rewrite slice_copy_at_below by lia. unfold y.
    apply (slice_copy_at_eq x (byteutils.FromUint32 len) 24).
    rewrite FromUint32_length. lia.
  - apply (slice_copy_at_eq y (byteutils.FromUint32 crc) 28).
    rewrite FromUint32_length. lia.
Qed.

Lemma IndexByte_bounds (s : list byte) (c : byte) :
  IndexByte s c = -1 ∨ 0 <= IndexByte s c < Z.of_nat (length s).
Proof.
  induction s as [|b s IH]; simpl; [left; reflexivity|].
  destruct (Byte.eqb b c); [right; lia|].
  destruct (Z.ltb_spec (IndexByte s c) 0); [left; reflexivity|right; lia].
Qed.

(** [IndexByte] finds the first occurrence. *)
Lemma IndexByte_first (pre post : list byte) (c : byte) :
  c ∉ pre → IndexByte (pre ++ c :: post) c = Z.of_nat (length pre).
Proof.
  induction pre as [|b pre IH]; intros Hpre; simpl.
  - rewrite (Byte.byte_dec_lb eq_refl). reflexivity.
  - apply not_elem_of_cons in Hpre as [Hb Hpre].
    rewrite (byte_eqb_neq b c) by congruence.
    rewrite IH by exact Hpre.
    destruct (Z.ltb_spec (Z.of_nat (length pre)) 0); lia.
Qed.

Lemma IndexByte_absent (s : list byte) (c : byte) :
  c ∉ s ↔ IndexByte s c = -1.
Proof.
  induction s as [|b s IH]; simpl.
  - split; [reflexivity|]. intros _. apply not_elem_of_nil.
  - rewrite not_elem_of_cons.
    destruct (Byte.eqb b c) eqn:E.
    + apply Byte.byte_dec_bl in E. subst b. split; [intros [Hc _]; congruence|lia].
    + apply Byte.eqb_false in E.
      pose proof (IndexByte_bounds s c) as Hb.
      destruct (Z.ltb_spec (IndexByte s c) 0).
      * split; [reflexivity|]. intros _. split; [congruence|]. apply IH. lia.
      * split; [|lia]. intros [_ Hs]. apply IH in Hs. lia.
Qed.

(** The name is what stands before the first zero byte of the field. *)
Lemma msgNameStr_terminated (name post : list byte) :
  x00 ∉ name → msgNameStr (name ++ x00 :: post) = Some name.
Proof.
  intros Hname. unfold msgNameStr. rewrite IndexByte_first by exact Hname.
  destruct (Z.ltb_spec (Z.of_nat (length name)) 0); [lia|].
  unfold slice. rewrite Nat2Z.id, drop_0, Nat.sub_0_r, take_app_length.
  reflexivity.
Qed.

(** Without a zero byte in the field, the slice expression panics. *)
Lemma msgNameStr_unterminated (field : list byte) :
  x00 ∉ field → msgNameStr field = None.
Proof.
  intros Hf. unfold msgNameStr. apply IndexByte_absent in Hf. rewrite Hf.
  reflexivity.
Qed.

Lemma ReadUint32_app (s : Stream) (a b : list byte) (n : Z) :
  inbound s = a ++ b → n = Z.of_nat (length a) →
  ReadUint32 s n = ReadOk a (with_inbound s b).
Proof.
  intros Hs ->. unfold ReadUint32. rewrite Hs, length_app.
  destruct (Z.leb_spec (Z.of_nat (length a)) (Z.of_nat (length a + length b)));
    [|lia].
  rewrite Nat2Z.id, take_app_length, drop_app_length. reflexivity.
Qed.

Lemma Uint32_FromUint32' (v : Z) :
  0 <= v < 2^32 → byteutils.Uint32 (byteutils.FromUint32 v) = Some v.
Proof.
  intros Hv. rewrite <- (app_nil_r (byteutils.FromUint32 v)).
  apply Uint32_FromUint32, Hv.
Qed.

Lemma verifyHeader_built (n : Node) :
  0 <= chainID n < 2^32 →
  verifyHeader n MagicNumber (byteutils.FromUint32 (chainID n)) [version n]
  = Verified.
Proof.
  intros Hc. unfold verifyHeader, byteutils.Equal.
  rewrite bool_decide_eq_true_2 by reflexivity.
  rewrite Uint32_FromUint32' by exact Hc.
  rewrite !bool_decide_eq_true_2 by reflexivity. reflexivity.
Qed.

(** The receive path on a built frame, up to the read of the payload. *)
Lemma receive_buildData (n : Node) (s : Stream) (name data rest : list byte) :
  0 <= chainID n < 2^32 → (length name ≤ 11)%nat → x00 ∉ name →
  inbound s = buildData (chainID n) (version n) data name ++ rest →
  receive n s =
  match ReadUint32 (with_inbound s (data ++ rest))
          (wrap32 (Z.of_nat (length data))) with
  | ReadWait => RxWait
  | ReadErr s2 => RxDataReadError s2
  | ReadOk data' s2 =>
      if bool_decide (crc32.ChecksumIEEE data' = crc32.ChecksumIEEE data)
      then RxFrame name data' s2 else RxChecksumError s2
  end.
Proof.
  intros Hc Hlen Hname Hs. unfold receive.
  unfold buildData in Hs. rewrite <- !app_assoc in Hs.
  set (hd := buildHeader _ _ _ _ _) in Hs.
  set (hc := byteutils.FromUint32 (crc32.ChecksumIEEE hd)) in Hs.
  rewrite (ReadUint32_app s (hd ++ hc) (data ++ rest)).
  2:{ rewrite Hs, <- app_assoc. reflexivity. }
  2:{ rewrite length_app. unfold hd. rewrite buildHeader_length. reflexivity. }
  unfold hd. rewrite sliceHeader_buildHeader.
  cbn [msgName magicNumber chainIDField versionField dataLength dataChecksum].
  rewrite (take_ge name) by lia.
  replace (12 - length name)%nat with (S (11 - length name)) by lia.
  rewrite replicate_S, msgNameStr_terminated by exact Hname.
  rewrite verifyHeader_built by exact Hc.
  rewrite Uint32_FromUint32' by (apply Z.mod_pos_bound; lia).
  rewrite Uint32_FromUint32' by apply crc32_facts.ChecksumIEEE_range.
  destruct (ReadUint32 _ _) as [data' s2|s2|]; try reflexivity.
  destruct (decide (crc32.ChecksumIEEE data' = crc32.ChecksumIEEE data)) as [E|E].
  - rewrite !bool_decide_eq_true_2 by congruence. reflexivity.
  - rewrite !bool_decide_eq_false_2 by congruence. reflexivity.
Qed.


(** A payload of exactly 2^32 bytes is announced with length 0 and is not
    what the receive path hands on. *)
Lemma receive_oversized (n : Node) (s : Stream) (name data rest : list byte) :
  0 <= chainID n < 2^32 → (length name ≤ 11)%nat → x00 ∉ name →
  Z.of_nat (length data) = 2^32 →
  inbound s = buildData (chainID n) (version n) data name ++ rest →
  ∀ s', receive n s ≠ RxFrame name data s'.
Proof.
  intros Hc Hlen Hname Hdata Hs s' Hr.
  rewrite (receive_buildData n s name data rest Hc Hlen Hname Hs) in Hr.
  unfold wrap32 in Hr. rewrite Hdata, Z.mod_same in Hr by lia.
  unfold ReadUint32 in Hr.
  destruct (0 <=? _) eqn:E in Hr; [|apply Z.leb_gt in E; lia].
  change (Z.to_nat 0) with 0%nat in Hr. rewrite take_0 in Hr.
  destruct (bool_decide _) in Hr; [|discriminate].
  injection Hr as Hd _. rewrite <- Hd in Hdata. simpl in Hdata. lia.
Qed.

Lemma hugePayload_length :
  Z.of_nat (length Scenario.hugePayload) = 2^32.
Proof.
  unfold Scenario.hugePayload. rewrite length_replicate.
  apply Z2Nat.id. lia.
Qed.

Lemma receive_huge :
  ¬ ∃ s', receive Scenario.nodeA
            (Scenario.fromB (buildData 7 x01 Scenario.hugePayload HELLO))
          = RxFrame HELLO Scenario.hugePayload s'.
Proof.
  intros [s' Hs'].
  refine (receive_oversized Scenario.nodeA _ HELLO Scenario.hugePayload []
            _ _ _ hugePayload_length _ s' Hs').
  - change (0 <= 7 < 2^32). lia.
  - change (5 ≤ 11)%nat. lia.
  - apply (bool_decide_unpack _). vm_compute. exact I.
  - symmetry. apply app_nil_r.
Qed.
Lemma ReadUint32_exact (s : Stream) (a b : list byte) :
  Z.of_nat (length a) < 2^32 →
  ReadUint32 (with_inbound s (a ++ b)) (wrap32 (Z.of_nat (length a)))
  = ReadOk a (with_inbound s b).
Proof.
  intros Hlt. unfold wrap32. rewrite Z.mod_small by lia.
  rewrite (ReadUint32_app _ a b); reflexivity.
Qed.

(** C2 (as amended): for every chain id, protocol version, message name of
    at most 11 bytes none of which is zero, and payload shorter than 2^32
    bytes, the header slicing and name extraction of the stream handler on
    the frame made by [buildData] give back the chain id, the version, the
    name and the payload, and the payload CRC-32 check passes. *)
Theorem frame_roundtrip (chain : Z) (ver : byte) (name data rest : list byte)
    (s : Stream) :
  0 <= chain < 2^32 → (length name ≤ 11)%nat → x00 ∉ name →
  Z.of_nat (length data) < 2^32 →
  inbound s = buildData chain ver data name ++ rest →
  let h := sliceHeader (take 36 (inbound s)) in
  byteutils.Uint32 (chainIDField h) = Some chain
  ∧ versionField h = [ver]
  ∧ msgNameStr (msgName h) = Some name
  ∧ byteutils.Uint32 (dataChecksum h) = Some (crc32.ChecksumIEEE data)
  ∧ ∀ n : Node, chainID n = chain → version n = ver →
      receive n s = RxFrame name data (with_inbound s rest).
Proof.
  intros Hc Hlen Hname Hdata Hs h.
  assert (Hh : h = sliceHeader
             (buildHeader chain name ver (wrap32 (Z.of_nat (length data)))
                (crc32.ChecksumIEEE data)
              ++ byteutils.FromUint32
                   (crc32.ChecksumIEEE
                      (buildHeader chain name ver
                         (wrap32 (Z.of_nat (length data)))
                         (crc32.ChecksumIEEE data))))).
  { unfold h. rewrite Hs. unfold buildData. rewrite <- app_assoc.
    rewrite take_app_length'; [reflexivity|].
    rewrite length_app, buildHeader_length. reflexivity. }
  rewrite Hh, sliceHeader_buildHeader.
  cbn [msgName chainIDField versionField dataChecksum].
  split; [apply Uint32_FromUint32', Hc|].
  split; [reflexivity|].
  split.
  { rewrite (take_ge name) by lia.
    replace (12 - length name)%nat with (S (11 - length name)) by lia.
    rewrite replicate_S. apply msgNameStr_terminated, Hname. }
  split; [apply Uint32_FromUint32', crc32_facts.ChecksumIEEE_range|].
  intros n Hn Hv. subst chain ver.
  rewrite (receive_buildData n s name data rest Hc Hlen Hname Hs).
  rewrite ReadUint32_exact by exact Hdata.
  rewrite bool_decide_eq_true_2 by reflexivity. reflexivity.
Qed.

(** The round trip of an OK frame followed by further bytes. *)
Lemma frame_roundtrip_witness :
  receive Scenario.nodeA (Scenario.fromB (buildData 7 x01 OK OK ++ BYE))
  = RxFrame OK OK (Scenario.fromB BYE).
Proof.
  refine (proj2 (proj2 (proj2 (proj2
    (frame_roundtrip 7 x01 OK OK BYE
       (Scenario.fromB (buildData 7 x01 OK OK ++ BYE)) _ _ _ _ _))))
    Scenario.nodeA _ _).
  - lia.
  - simpl. lia.
  - apply (bool_decide_unpack _). vm_compute. exact I.
  - simpl. lia.
  - reflexivity.
  - reflexivity.
  - reflexivity.
Defined.

(** C2 as stated fails: the name [a\x00b] of three bytes comes back as [a],
    and a payload of 2^32 bytes is announced with length 0 and does not come
    back. *)
Lemma frame_roundtrip_counterexample :
  (let s := Scenario.fromB (buildData 7 x01 OK Scenario.nulName) in
   msgNameStr (msgName (sliceHeader (take 36 (inbound s)))) = Some [x61]
   ∧ receive Scenario.nodeA s = RxFrame [x61] OK (Scenario.fromB []))
  ∧ ¬ ∃ s', receive Scenario.nodeA
              (Scenario.fromB (buildData 7 x01 Scenario.hugePayload HELLO))
            = RxFrame HELLO Scenario.hugePayload s'.
Proof.
  split; [split; vm_compute; reflexivity|]. exact receive_huge.
Qed.

(** ** The name extraction of the stream handler *)

Lemma receive_unterminated (n : Node) (s s1 : Stream) (dataHeader : list byte) :
  ReadUint32 s 36 = ReadOk dataHeader s1 →
  x00 ∉ msgName (sliceHeader dataHeader) →
  receive n s = RxPanic s1.
Proof.
  intros Hread Hfield. unfold receive. rewrite Hread.
  rewrite msgNameStr_unterminated by exact Hfield. reflexivity.
Qed.

(** C10: the frame builder copies the name without a length check, so a
    message name of 12 or more characters (a character of a name is a
    non-zero byte, the zero byte being the terminator of the name field; of
    the name only its first 12 bytes matter) fills the 12-byte name field
    without a zero byte; and on a received header whose name field holds no
    zero byte, [IndexByte] is -1 and the slice expression panics, where a
    framing error would have run [Bye] and left the loop. *)
Theorem unterminated_name_panics `{External} :
  (∀ (c : Z) (name : list byte) (v : byte) (len crc : Z) (tail : list byte),
     (12 ≤ length name)%nat → x00 ∉ take 12 name →
     x00 ∉ msgName (sliceHeader (buildHeader c name v len crc ++ tail)))
  ∧ (∀ (ns : NetService) (sid : nat) (s s1 : Stream) (dataHeader : list byte),
       streams ns !! sid = Some s →
       ReadUint32 s 36 = ReadOk dataHeader s1 →
       x00 ∉ msgName (sliceHeader dataHeader) →
       IndexByte (msgName (sliceHeader dataHeader)) x00 = -1
       ∧ msgNameStr (msgName (sliceHeader dataHeader)) = None
       ∧ handleMsg ns sid = (setStream ns sid s1, PanicFlow)).
Proof.
  split.
  - intros c name v len crc tail Hlen Hname.
    rewrite msgName_buildHeader.
    replace (12 - length name)%nat with 0%nat by lia.
    rewrite app_nil_r. exact Hname.
  - intros ns sid s s1 dataHeader Hs Hread Hfield.
    split; [apply IndexByte_absent, Hfield|].
    split; [apply msgNameStr_unterminated, Hfield|].
    unfold handleMsg. rewrite Hs.
    rewrite (receive_unterminated _ s s1 dataHeader Hread Hfield).
    reflexivity.
Qed.

Section Concrete.
#[local] Existing Instance Scenario.toy.

(** A BYE frame named with twelve non-zero bytes makes the handler panic. *)
Lemma unterminated_name_panics_witness :
  handleMsg (Scenario.serviceA (buildData 7 x01 BYE Scenario.longName)) 0
  = (Scenario.serviceA BYE, PanicFlow).
Proof.
  pose proof (proj1 unterminated_name_panics 7 Scenario.longName x01
                (wrap32 3) (crc32.ChecksumIEEE BYE)
                (byteutils.FromUint32 (crc32.ChecksumIEEE
                  (buildHeader 7 Scenario.longName x01 (wrap32 3)
                     (crc32.ChecksumIEEE BYE)))))
    as Hfield.
  assert (Hl : (12 ≤ length Scenario.longName)%nat) by (simpl; lia).
  assert (Hn : x00 ∉ take 12 Scenario.longName)
    by (apply (bool_decide_unpack _); vm_compute; exact I).
  specialize (Hfield Hl Hn).
  pose proof (proj2 unterminated_name_panics
                (Scenario.serviceA (buildData 7 x01 BYE Scenario.longName)) 0%nat
                (Scenario.fromB (buildData 7 x01 BYE Scenario.longName))
                (Scenario.fromB BYE)
                (buildHeader 7 Scenario.longName x01 (wrap32 3)
                   (crc32.ChecksumIEEE BYE)
                 ++ byteutils.FromUint32 (crc32.ChecksumIEEE
                      (buildHeader 7 Scenario.longName x01 (wrap32 3)
                         (crc32.ChecksumIEEE BYE))))
                eq_refl eq_refl Hfield) as [_ [_ Hpanic]].
  rewrite Hpanic. vm_compute. reflexivity.
Defined.

End Concrete.

(** ** Header validation and the ways out of the receive path *)

Section Handler.
Context `{External}.

Lemma handleMsg_receive (ns : NetService) (sid : nat) (s : Stream) :
  streams ns !! sid = Some s →
  handleMsg ns sid =
  match receive (node ns) s with
  | RxWait => (ns, WaitRead)
  | RxHeaderReadError s' =>
      byeAndBreak (setStream ns sid s') (RemotePeer s) (RemoteMultiaddr s)
  | RxPanic s' => (setStream ns sid s', PanicFlow)
  | RxRejected _ s' =>
      byeAndBreak (setStream ns sid s') (RemotePeer s) (RemoteMultiaddr s)
  | RxDataReadError s' =>
      byeAndBreak (setStream ns sid s') (RemotePeer s) (RemoteMultiaddr s)
  | RxChecksumError s' => (setStream ns sid s', BreakHandleMsg)
  | RxFrame name data s' =>
      dispatch (setStream ns sid s') sid (RemotePeer s) (RemoteMultiaddr s)
        name data
  end.
Proof. intros Hs. unfold handleMsg. rewrite Hs. reflexivity. Qed.

Lemma set1_zero_absent (l : list (string * Z)) (a : string) :
  a ∉ (peerstore.set1 0 l a).*1.
Proof.
  unfold peerstore.set1. simpl.
  intros Hin. apply list_elem_of_fmap in Hin as [[a' t] [-> Hin]].
  apply list_elem_of_filter in Hin as [Hne _]. simpl in Hne. congruence.
Qed.

(** What [Bye] leaves behind for the one address the handler gives it. *)
Lemma Bye_one (n : Node) (pid addr : string) :
  ∃ n', Bye n pid [addr] = Some n'
    ∧ routeTable n' = kbucket.Remove pid (routeTable n)
    ∧ (pid ∉ routeTable n')
    ∧ conn n' = <[addr := S_NC]> (conn n)
    ∧ peerstore n' = peerstore.SetAddrs pid [addr] 0 (peerstore n)
    ∧ (addr ∉ peerstore.AddrsOf (peerstore n') pid)
    ∧ stream n' = stream n.
Proof.
  eexists. split; [reflexivity|]. simpl.
  split; [reflexivity|].
  split.
  { unfold kbucket.Remove. intros Hin.
    apply list_elem_of_filter in Hin as [Hne _]. congruence. }
  split; [reflexivity|]. split; [reflexivity|]. split; [|reflexivity].
  unfold peerstore.AddrsOf, peerstore.SetAddrs.
  rewrite lookup_insert_eq. simpl. apply set1_zero_absent.
Qed.

Lemma byeAndBreak_one (ns : NetService) (pid addr : string) :
  ∃ n', Bye (node ns) pid [addr] = Some n'
    ∧ byeAndBreak ns pid addr = (with_node ns n', BreakHandleMsg).
Proof. eexists. split; reflexivity. Qed.

End Handler.

Lemma verifyHeader_cases (n : Node) (magic chain ver : list byte) :
  let verdict := verifyHeader n magic chain ver in
  (verdict = Rejected MagicNumberError ↔ magic ≠ MagicNumber)
  ∧ (verdict = Rejected ChainIDError ↔
       magic = MagicNumber ∧ byteutils.Uint32 chain ≠ Some (chainID n))
  ∧ (verdict = Rejected VersionError ↔
       magic = MagicNumber ∧ byteutils.Uint32 chain = Some (chainID n)
       ∧ ver ≠ [version n])
  ∧ (verdict = Verified ↔
       magic = MagicNumber ∧ byteutils.Uint32 chain = Some (chainID n)
       ∧ ver = [version n]).
Proof.
  unfold verifyHeader, byteutils.Equal. simpl.
  destruct (decide (MagicNumber = magic)) as [Hm|Hm].
  2:{ rewrite bool_decide_eq_false_2 by exact Hm. simpl.
      repeat split; try congruence; intros; try discriminate;
        intuition congruence. }
  rewrite bool_decide_eq_true_2 by exact Hm. simpl.
  destruct (decide (Some (chainID n) = byteutils.Uint32 chain)) as [Hc|Hc].
  2:{ rewrite bool_decide_eq_false_2 by exact Hc. simpl.
      repeat split; try congruence; intros; try discriminate;
        intuition congruence. }
  rewrite bool_decide_eq_true_2 by exact Hc. simpl.
  destruct (decide ([version n] = ver)) as [Hv|Hv].
  2:{ rewrite bool_decide_eq_false_2 by exact Hv. simpl.
      repeat split; try congruence; intros; try discriminate;
        intuition congruence. }
  rewrite bool_decide_eq_true_2 by exact Hv. simpl.
  repeat split; try congruence; intros; try discriminate; intuition congruence.
Qed.

Section Handler.
Context `{External}.

(** Header validation on a header whose name field holds a zero byte, so
    that the name extraction of lines 109 to 111 has returned:
    [verifyHeader] compares, in this order, the magic number with the
    protocol's, the chain id with the node's and the version with the node's;
    when one of them differs, the handler runs [Bye] (the remote peer leaves
    the route table, its address leaves the address book, the address is
    marked not connected), leaves the loop, and has read the 36 header bytes
    and nothing of the payload. *)
Theorem header_validation (ns : NetService) (sid : nat) (s s1 : Stream)
    (dataHeader name : list byte) :
  streams ns !! sid = Some s →
  ReadUint32 s 36 = ReadOk dataHeader s1 →
  msgNameStr (msgName (sliceHeader dataHeader)) = Some name →
  let h := sliceHeader dataHeader in
  let verdict :=
    verifyHeader (node ns) (magicNumber h) (chainIDField h) (versionField h) in
  (verdict = Rejected MagicNumberError ↔ magicNumber h ≠ MagicNumber)
  ∧ (verdict = Rejected ChainIDError ↔
       magicNumber h = MagicNumber
       ∧ byteutils.Uint32 (chainIDField h) ≠ Some (chainID (node ns)))
  ∧ (verdict = Rejected VersionError ↔
       magicNumber h = MagicNumber
       ∧ byteutils.Uint32 (chainIDField h) = Some (chainID (node ns))
       ∧ versionField h ≠ [version (node ns)])
  ∧ (verdict ≠ Verified →
       ∃ n', Bye (node ns) (RemotePeer s) [RemoteMultiaddr s] = Some n'
         ∧ handleMsg ns sid = (with_node (setStream ns sid s1) n', BreakHandleMsg)
         ∧ (RemotePeer s ∉ routeTable n')
         ∧ (RemoteMultiaddr s ∉ peerstore.AddrsOf (peerstore n') (RemotePeer s))
         ∧ conn n' !! RemoteMultiaddr s = Some S_NC
         ∧ inbound s1 = drop 36 (inbound s)).
Proof.
  intros Hs Hread Hname h verdict.
  pose proof (verifyHeader_cases (node ns) (magicNumber h) (chainIDField h)
                (versionField h)) as (Hm & Hc & Hv & _).
  split; [exact Hm|]. split; [exact Hc|]. split; [exact Hv|].
  intros Hrej.
  destruct (Bye_one (node ns) (RemotePeer s) (RemoteMultiaddr s))
    as (n' & Hbye & _ & Hrt & Hconn & _ & Hps & _).
  exists n'. split; [exact Hbye|].
  split.
  { rewrite (handleMsg_receive ns sid s Hs). unfold receive.
    rewrite Hread, Hname. unfold verdict, h in Hrej.
    destruct (verifyHeader _ _ _ _) as [|e]; [congruence|].
    unfold byeAndBreak. change (node (setStream ns sid s1)) with (node ns).
    rewrite Hbye. reflexivity. }
  split; [exact Hrt|]. split; [exact Hps|].
  split; [rewrite Hconn; apply lookup_insert_eq|].
  unfold ReadUint32 in Hread.
  destruct (36 <=? _); [|destruct (closed s); discriminate].
  injection Hread as _ <-. reflexivity.
Qed.

End Handler.

Section Concrete.
#[local] Existing Instance Scenario.toy.

(** A HELLO frame of chain 9 arriving at node A of chain 7: the loop ends,
    peer B's address is marked not connected and the payload is still
    unread. *)
Lemma header_validation_witness :
  let r := handleMsg (Scenario.serviceA (buildData 9 x01 HELLO HELLO)) 0 in
  r.2 = BreakHandleMsg
  ∧ conn (node r.1) !! "/ip4/10.0.0.2/tcp/51413" = Some S_NC
  ∧ inbound <$> streams r.1 !! 0%nat = Some HELLO.
Proof.
  destruct (header_validation
              (Scenario.serviceA (buildData 9 x01 HELLO HELLO)) 0%nat
              (Scenario.fromB (buildData 9 x01 HELLO HELLO))
              (Scenario.fromB HELLO)
              (take 36 (buildData 9 x01 HELLO HELLO)) HELLO
              eq_refl eq_refl eq_refl)
    as (_ & _ & _ & Hbye).
  destruct Hbye as (n' & _ & Hh & _ & _ & Hconn & _); [vm_compute; discriminate|].
  cbv zeta. rewrite Hh. cbn [fst snd].
  split; [reflexivity|]. split; [exact Hconn|].
  vm_compute. reflexivity.
Defined.

(** C4 does not hold of the code.  Node A has peer B registered, and a
    frame arrives from B whose magic number is not the protocol's and whose
    name field holds twelve non-zero bytes.  [verifyHeader] rejects such a
    header for its magic number, and [Bye] would take B out of the route
    table and mark its address not connected; but the name extraction of
    lines 109 to 111 comes before the validation and panics on this header.
    The handler never reaches [verifyHeader]: the loop is not left by
    [break HandleMsg], and B is still listed, its address still in the
    address book and still marked connected. *)
Theorem header_mismatch_panics :
  let ns := Scenario.connected Scenario.badMagicFrame in
  let h := sliceHeader (take 36 Scenario.badMagicFrame) in
  verifyHeader (node ns) (magicNumber h) (chainIDField h) (versionField h)
  = Rejected MagicNumberError
  ∧ msgNameStr (msgName h) = None
  ∧ ((λ n, (routeTable n, conn n !! "/ip4/10.0.0.2/tcp/51413"))
       <$> Bye (node ns) "QmNodeB" ["/ip4/10.0.0.2/tcp/51413"])
    = Some ([], Some S_NC)
  ∧ handleMsg ns 0 = (Scenario.connected BYE, PanicFlow)
  ∧ (let final := run ns [0; 0]%nat in
     ((λ ns', pc <$> loops ns') <$> final) = Some [Crashed]
     ∧ (node <$> final) = Some Scenario.nodeAwithB
     ∧ ((λ ns', inbound <$> streams ns' !! 0%nat) <$> final) = Some (Some BYE))
  ∧ routeTable Scenario.nodeAwithB = ["QmNodeB"]
  ∧ conn Scenario.nodeAwithB !! "/ip4/10.0.0.2/tcp/51413" = Some S_OK
  ∧ peerstore.AddrsOf (peerstore Scenario.nodeAwithB) "QmNodeB"
    = ["/ip4/10.0.0.2/tcp/51413"].
Proof.
  cbv zeta. repeat split; vm_compute; reflexivity.
Qed.

End Concrete.

(** What a read leaves of a stream: the bytes that follow, on the same
    stream, open and writable as before. *)
Lemma ReadUint32_ok (s s' : Stream) (n : Z) (data : list byte) :
  ReadUint32 s n = ReadOk data s' →
  data = take (Z.to_nat n) (inbound s)
  ∧ s' = with_inbound s (drop (Z.to_nat n) (inbound s)).
Proof.
  unfold ReadUint32. destruct (n <=? _); [|destruct (closed s); discriminate].
  intros [= <- <-]. split; reflexivity.
Qed.

(** When the receive path reports a checksum error: the header was read,
    the name extracted, the header accepted, the payload read, and the
    CRC-32 of the payload is not the one of the header. *)
Lemma receive_checksum_error (n : Node) (s s2 : Stream) :
  receive n s = RxChecksumError s2 ↔
  ∃ dataHeader s1 name len data,
    ReadUint32 s 36 = ReadOk dataHeader s1
    ∧ msgNameStr (msgName (sliceHeader dataHeader)) = Some name
    ∧ verifyHeader n (magicNumber (sliceHeader dataHeader))
        (chainIDField (sliceHeader dataHeader))
        (versionField (sliceHeader dataHeader)) = Verified
    ∧ byteutils.Uint32 (dataLength (sliceHeader dataHeader)) = Some len
    ∧ ReadUint32 s1 len = ReadOk data s2
    ∧ Some (crc32.ChecksumIEEE data)
      ≠ byteutils.Uint32 (dataChecksum (sliceHeader dataHeader)).
Proof.
  unfold receive. split.
  - destruct (ReadUint32 s 36) as [dataHeader s1| |] eqn:Hh; try discriminate.
    destruct (msgNameStr _) as [name|] eqn:Hn; try discriminate.
    destruct (verifyHeader _ _ _ _) eqn:Hv; try discriminate.
    destruct (byteutils.Uint32 (dataLength _)) as [len|] eqn:Hl;
      try discriminate.
    destruct (ReadUint32 s1 len) as [data s2'| |] eqn:Hd; try discriminate.
    destruct (bool_decide _) eqn:Hc; try discriminate.
    intros [= <-]. apply bool_decide_eq_false in Hc.
    exists dataHeader, s1, name, len, data. repeat split; assumption.
  - intros (dataHeader & s1 & name & len & data & Hh & Hn & Hv & Hl & Hd & Hc).
    rewrite Hh, Hn, Hv, Hl, Hd.
    rewrite bool_decide_eq_false_2 by exact Hc. reflexivity.
Qed.

Section Handler.
Context `{External}.

(** The ways out of the receive path, by what was read: [Bye] is run when
    the header read fails, when the header is rejected and when the payload
    read fails; it is not run when the payload checksum differs. *)
Lemma handleMsg_header_read_error (ns : NetService) (sid : nat) (s s1 : Stream) :
  streams ns !! sid = Some s →
  ReadUint32 s 36 = ReadErr s1 →
  handleMsg ns sid
  = byeAndBreak (setStream ns sid s1) (RemotePeer s) (RemoteMultiaddr s).
Proof.
  intros Hs Hread. rewrite (handleMsg_receive ns sid s Hs). unfold receive.
  rewrite Hread. reflexivity.
Qed.

Lemma handleMsg_rejected (ns : NetService) (sid : nat) (s s1 : Stream)
    (dataHeader name : list byte) :
  streams ns !! sid = Some s →
  ReadUint32 s 36 = ReadOk dataHeader s1 →
  msgNameStr (msgName (sliceHeader dataHeader)) = Some name →
  verifyHeader (node ns) (magicNumber (sliceHeader dataHeader))
    (chainIDField (sliceHeader dataHeader))
    (versionField (sliceHeader dataHeader)) ≠ Verified →
  handleMsg ns sid
  = byeAndBreak (setStream ns sid s1) (RemotePeer s) (RemoteMultiaddr s).
Proof.
  intros Hs Hread Hname Hrej. rewrite (handleMsg_receive ns sid s Hs).
  unfold receive. rewrite Hread, Hname.
  destruct (verifyHeader _ _ _ _); [congruence|reflexivity].
Qed.

Lemma handleMsg_payload (ns : NetService) (sid : nat) (s s1 : Stream)
    (dataHeader name : list byte) (len : Z) :
  streams ns !! sid = Some s →
  ReadUint32 s 36 = ReadOk dataHeader s1 →
  msgNameStr (msgName (sliceHeader dataHeader)) = Some name →
  verifyHeader (node ns) (magicNumber (sliceHeader dataHeader))
    (chainIDField (sliceHeader dataHeader))
    (versionField (sliceHeader dataHeader)) = Verified →
  byteutils.Uint32 (dataLength (sliceHeader dataHeader)) = Some len →
  handleMsg ns sid =
  match ReadUint32 s1 len with
  | ReadWait => (ns, WaitRead)
  | ReadErr s2 =>
      byeAndBreak (setStream ns sid s2) (RemotePeer s) (RemoteMultiaddr s)
  | ReadOk data s2 =>
      if bool_decide (Some (crc32.ChecksumIEEE data)
                      = byteutils.Uint32 (dataChecksum (sliceHeader dataHeader)))
      then dispatch (setStream ns sid s2) sid (RemotePeer s) (RemoteMultiaddr s)
             name data
      else (setStream ns sid s2, BreakHandleMsg)
  end.
Proof.
  intros Hs Hread Hname Hver Hlen. rewrite (handleMsg_receive ns sid s Hs).
  unfold receive. rewrite Hread, Hname, Hver, Hlen.
  destruct (ReadUint32 s1 len) as [data s2|s2|]; try reflexivity.
  destruct (bool_decide _); reflexivity.
Qed.

Lemma byeAndBreak_setStream (ns : NetService) (sid : nat) (s' : Stream)
    (pid addr : string) (n' : Node) :
  Bye (node ns) pid [addr] = Some n' →
  byeAndBreak (setStream ns sid s') pid addr
  = (with_node (setStream ns sid s') n', BreakHandleMsg).
Proof.
  intros Hbye. unfold byeAndBreak.
  change (node (setStream ns sid s')) with (node ns). rewrite Hbye. reflexivity.
Qed.

(** C8 (as amended): on a payload CRC-32 mismatch the receive loop ends
    without [Bye] and without closing the connection (no stream is closed
    anywhere in the code): the node, and with it the route table, the
    address book, the connection statuses and the send handles, is as
    before; the stream stays in place, open, with the frame consumed, and a
    later [SendMsg] to a peer for whose first address it is the send handle
    is still written to it.  A failed read of the header, a rejected header
    whose name field holds a zero byte, and a failed read of the payload end
    the loop after [Bye], which removes the peer from the route table,
    expires the address and marks it not connected. *)
Theorem checksum_error_skips_bye (ns : NetService) (sid : nat) (s : Stream) :
  streams ns !! sid = Some s →
  (∀ dataHeader s1 name len data s2,
     ReadUint32 s 36 = ReadOk dataHeader s1 →
     msgNameStr (msgName (sliceHeader dataHeader)) = Some name →
     verifyHeader (node ns) (magicNumber (sliceHeader dataHeader))
       (chainIDField (sliceHeader dataHeader))
       (versionField (sliceHeader dataHeader)) = Verified →
     byteutils.Uint32 (dataLength (sliceHeader dataHeader)) = Some len →
     ReadUint32 s1 len = ReadOk data s2 →
     Some (crc32.ChecksumIEEE data)
     ≠ byteutils.Uint32 (dataChecksum (sliceHeader dataHeader)) →
     handleMsg ns sid = (setStream ns sid s2, BreakHandleMsg)
     ∧ pcOfFlow (handleMsg ns sid).2 = Ended
     ∧ node (handleMsg ns sid).1 = node ns
     ∧ streams (handleMsg ns sid).1 !! sid = Some s2
     ∧ s2 = with_inbound s
              (drop (Z.to_nat len) (drop 36 (inbound s)))
     ∧ (∀ msgName' msg pid a0 more,
          peerstore.AddrsOf (peerstore (node ns)) pid = a0 :: more →
          stream (node ns) !! a0 = Some sid →
          writable s = true →
          SendMsg (handleMsg ns sid).1 msgName' msg pid
          = (setStream (handleMsg ns sid).1 sid
               (with_outbound s2
                  (outbound s ++ nsBuildData ns msg msgName')),
             Returned)))
  ∧ (∀ s1, ReadUint32 s 36 = ReadErr s1 →
       ∃ n', Bye (node ns) (RemotePeer s) [RemoteMultiaddr s] = Some n'
         ∧ handleMsg ns sid = (with_node (setStream ns sid s1) n', BreakHandleMsg))
  ∧ (∀ dataHeader s1 name,
       ReadUint32 s 36 = ReadOk dataHeader s1 →
       msgNameStr (msgName (sliceHeader dataHeader)) = Some name →
       verifyHeader (node ns) (magicNumber (sliceHeader dataHeader))
         (chainIDField (sliceHeader dataHeader))
         (versionField (sliceHeader dataHeader)) ≠ Verified →
       ∃ n', Bye (node ns) (RemotePeer s) [RemoteMultiaddr s] = Some n'
         ∧ handleMsg ns sid = (with_node (setStream ns sid s1) n', BreakHandleMsg))
  ∧ (∀ dataHeader s1 name len s2,
       ReadUint32 s 36 = ReadOk dataHeader s1 →
       msgNameStr (msgName (sliceHeader dataHeader)) = Some name →
       verifyHeader (node ns) (magicNumber (sliceHeader dataHeader))
         (chainIDField (sliceHeader dataHeader))
         (versionField (sliceHeader dataHeader)) = Verified →
       byteutils.Uint32 (dataLength (sliceHeader dataHeader)) = Some len →
       ReadUint32 s1 len = ReadErr s2 →
       ∃ n', Bye (node ns) (RemotePeer s) [RemoteMultiaddr s] = Some n'
         ∧ handleMsg ns sid = (with_node (setStream ns sid s2) n', BreakHandleMsg))
  ∧ (∀ n', Bye (node ns) (RemotePeer s) [RemoteMultiaddr s] = Some n' →
       routeTable n' = kbucket.Remove (RemotePeer s) (routeTable (node ns))
       ∧ peerstore n' =
           peerstore.SetAddrs (RemotePeer s) [RemoteMultiaddr s] 0
             (peerstore (node ns))
       ∧ conn n' = <[RemoteMultiaddr s := S_NC]> (conn (node ns))).
Proof.
  intros Hs.
  destruct (Bye_one (node ns) (RemotePeer s) (RemoteMultiaddr s))
    as (n' & Hbye & Hrt & _ & Hconn & Hps & _).
  split; [|split; [|split; [|split]]].
  - intros dataHeader s1 name len data s2 Hread Hname Hver Hlen Hdata Hcrc.
    assert (Hh : handleMsg ns sid = (setStream ns sid s2, BreakHandleMsg)).
    { rewrite (handleMsg_payload ns sid s s1 dataHeader name len
                 Hs Hread Hname Hver Hlen), Hdata.
      rewrite bool_decide_eq_false_2 by exact Hcrc. reflexivity. }
    rewrite Hh. split; [reflexivity|]. split; [reflexivity|].
    split; [reflexivity|]. split; [apply lookup_insert_eq|].
    apply ReadUint32_ok in Hread as [_ ->].
    apply ReadUint32_ok in Hdata as [_ ->].
    split; [reflexivity|].
    intros msgName' msg pid a0 more Haddrs Hhandle Hw.
    unfold SendMsg. cbn [fst node setStream with_streams].
    rewrite Haddrs, Hhandle. cbn [length]. 
    unfold writeTo. cbn [streams setStream with_streams].
    rewrite lookup_insert_eq. cbn [mbind option_bind].
    unfold Write. cbn [writable with_inbound]. rewrite Hw.
    reflexivity.
  - intros s1 Hread. exists n'. split; [exact Hbye|].
    rewrite (handleMsg_header_read_error ns sid s s1 Hs Hread).
    apply byeAndBreak_setStream, Hbye.
  - intros dataHeader s1 name Hread Hname Hrej. exists n'.
    split; [exact Hbye|].
    rewrite (handleMsg_rejected ns sid s s1 dataHeader name Hs Hread Hname Hrej).
    apply byeAndBreak_setStream, Hbye.
  - intros dataHeader s1 name len s2 Hread Hname Hver Hlen Hdata. exists n'.
    split; [exact Hbye|].
    rewrite (handleMsg_payload ns sid s s1 dataHeader name len
               Hs Hread Hname Hver Hlen), Hdata.
    apply byeAndBreak_setStream, Hbye.
  - intros n'' Hbye'. rewrite Hbye in Hbye'. injection Hbye' as <-.
    repeat split; assumption.
Qed.

(** C9: the guard [len(addrs) < 0] of [SendMsg] and [SyncRoutes] is false
    for every address list, and for a peer without an address in the
    peerstore both calls reach [addrs[0]] and panic. *)
Theorem empty_addrs_panics (ns : NetService) (name msg : list byte)
    (pid : string) :
  peerstore.AddrsOf (peerstore (node ns)) pid = [] →
  (∀ addrs : list string, (Z.of_nat (length addrs) <? 0) = false)
  ∧ SendMsg ns name msg pid = (ns, Panicked)
  ∧ SyncRoutes ns pid = (ns, Panicked).
Proof.
  intros Haddrs. split.
  - intros addrs. apply Z.ltb_ge. lia.
  - unfold SendMsg, SyncRoutes. rewrite Haddrs. split; reflexivity.
Qed.

End Handler.

Section Concrete.
#[local] Existing Instance Scenario.toy.

(** Four frames on the registered connection of peer B: a BYE frame whose
    payload was altered in transit ends the loop and leaves node A as it
    was; a header cut short by a hang-up, a BYE frame of chain 9 and a
    payload cut short by a hang-up end the loop with B out of the route
    table. *)
Lemma checksum_error_skips_bye_witness :
  handleMsg (Scenario.connected Scenario.alteredFrame) 0
  = (Scenario.connected [], BreakHandleMsg)
  ∧ (∀ bytes,
       bytes = take 20 (buildData 7 x01 BYE BYE)
       ∨ bytes = take 37 (buildData 7 x01 BYE BYE) →
       let r := handleMsg (Scenario.disconnected bytes) 0 in
       r.2 = BreakHandleMsg ∧ routeTable (node r.1) = [])
  ∧ (let r := handleMsg (Scenario.connected (buildData 9 x01 BYE BYE)) 0 in
     r.2 = BreakHandleMsg ∧ routeTable (node r.1) = []).
Proof.
  split; [|split].
  - pose proof (checksum_error_skips_bye
                  (Scenario.connected Scenario.alteredFrame) 0%nat
                  (Scenario.fromB Scenario.alteredFrame) eq_refl)
      as (Hcrc & _).
    destruct (Hcrc (take 36 Scenario.alteredFrame)
                (Scenario.fromB (gostring "byf")) BYE 3 (gostring "byf")
                (Scenario.fromB [])
                ltac:(vm_compute; reflexivity) ltac:(vm_compute; reflexivity)
                ltac:(vm_compute; reflexivity) ltac:(vm_compute; reflexivity)
                ltac:(vm_compute; reflexivity) ltac:(vm_compute; discriminate))
      as (Hh & _).
    rewrite Hh. vm_compute. reflexivity.
  - intros bytes [-> | ->] r; subst r.
    + pose proof (checksum_error_skips_bye
                    (Scenario.disconnected (take 20 (buildData 7 x01 BYE BYE)))
                    0%nat
                    (Scenario.hungUp (take 20 (buildData 7 x01 BYE BYE)))
                    eq_refl)
        as (_ & Hhdr & _ & _ & Hbye).
      destruct (Hhdr (Scenario.hungUp []) ltac:(vm_compute; reflexivity))
        as (n' & Hn' & Hh).
      rewrite Hh. split; [reflexivity|]. cbn [fst node with_node].
      destruct (Hbye n' Hn') as (-> & _). reflexivity.
    + pose proof (checksum_error_skips_bye
                    (Scenario.disconnected (take 37 (buildData 7 x01 BYE BYE)))
                    0%nat
                    (Scenario.hungUp (take 37 (buildData 7 x01 BYE BYE)))
                    eq_refl)
        as (_ & _ & _ & Hpay & Hbye).
      destruct (Hpay (take 36 (buildData 7 x01 BYE BYE))
                  (Scenario.hungUp [x62]) BYE 3 (Scenario.hungUp [])
                  ltac:(vm_compute; reflexivity) ltac:(vm_compute; reflexivity)
                  ltac:(vm_compute; reflexivity) ltac:(vm_compute; reflexivity)
                  ltac:(vm_compute; reflexivity))
        as (n' & Hn' & Hh).
      rewrite Hh. split; [reflexivity|]. cbn [fst node with_node].
      destruct (Hbye n' Hn') as (-> & _). reflexivity.
  - intros r; subst r.
    pose proof (checksum_error_skips_bye
                  (Scenario.connected (buildData 9 x01 BYE BYE)) 0%nat
                  (Scenario.fromB (buildData 9 x01 BYE BYE)) eq_refl)
      as (_ & _ & Hrej & _ & Hbye).
    destruct (Hrej (take 36 (buildData 9 x01 BYE BYE)) (Scenario.fromB BYE) BYE
                ltac:(vm_compute; reflexivity) ltac:(vm_compute; reflexivity)
                ltac:(vm_compute; discriminate))
      as (n' & Hn' & Hh).
    rewrite Hh. split; [reflexivity|]. cbn [fst node with_node].
    destruct (Hbye n' Hn') as (-> & _). reflexivity.
Defined.

(** C8 as stated fails in two places.  The connection is not closed on a
    checksum error: after the altered frame the loop of B's connection has
    ended, but the address of B is still marked connected, stream 0 is
    still its send handle and still takes writes, and a [SendMsg] to B puts
    its frame on that stream.  And a header-validation failure does not
    always run [Bye]: on the header of a frame of chain 9 whose name field
    holds twelve non-zero bytes, the name extraction panics before
    [verifyHeader] is reached, and node A is as it was. *)
Lemma checksum_error_counterexample :
  (let final := run (Scenario.connected Scenario.alteredFrame) [0; 0]%nat in
   ((λ ns, pc <$> loops ns) <$> final) = Some [Ended]
   ∧ ((λ ns, conn (node ns) !! "/ip4/10.0.0.2/tcp/51413") <$> final)
     = Some (Some S_OK)
   ∧ ((λ ns, stream (node ns) !! "/ip4/10.0.0.2/tcp/51413") <$> final)
     = Some (Some 0%nat)
   ∧ ((λ ns, writable <$> streams ns !! 0%nat) <$> final) = Some (Some true)
   ∧ ((λ ns, outbound <$>
             streams (SendMsg ns NEWBLOCK [x0a; x01; x2a] "QmNodeB").1 !! 0%nat)
        <$> final)
     = Some (Some (buildData 7 x01 [x0a; x01; x2a] NEWBLOCK)))
  ∧ (let frame := buildData 9 x01 BYE Scenario.longName in
     let h := sliceHeader (take 36 frame) in
     verifyHeader Scenario.nodeAwithB (magicNumber h) (chainIDField h)
       (versionField h) = Rejected ChainIDError
     ∧ handleMsg (Scenario.connected frame) 0
       = (Scenario.connected BYE, PanicFlow)).
Proof.
  cbv zeta. repeat split; vm_compute; reflexivity.
Qed.

(** Node A knows no address of peer C. *)
Lemma empty_addrs_panics_witness :
  SendMsg (Scenario.serviceA []) NEWBLOCK [x0a; x01; x2a] "QmNodeC"
  = (Scenario.serviceA [], Panicked)
  ∧ SyncRoutes (Scenario.serviceA []) "QmNodeC"
    = (Scenario.serviceA [], Panicked).
Proof.
  exact (proj2 (empty_addrs_panics (Scenario.serviceA []) NEWBLOCK
                  [x0a; x01; x2a] "QmNodeC" eq_refl)).
Defined.

End Concrete.

(** ** The address book *)

Lemma set1_zero (l : list (string * Z)) (a : string) :
  peerstore.set1 0 l a = filter (λ e, e.1 ≠ a) l.
Proof. reflexivity. Qed.

Lemma fold_set1_zero_elem (addrs : list string) (l : list (string * Z))
    (e : string * Z) :
  e ∈ fold_left (peerstore.set1 0) addrs l → e ∈ l ∧ e.1 ∉ addrs.
Proof.
  revert l. induction addrs as [|a addrs IH]; intros l; simpl.
  - intros He. split; [exact He|apply not_elem_of_nil].
  - intros He. apply IH in He as [Hin Hnot].
    rewrite set1_zero in Hin. apply list_elem_of_filter in Hin as [Hne Hin].
    split; [exact Hin|]. apply not_elem_of_cons. split; assumption.
Qed.

(** Setting all the known addresses of a peer with lifetime 0 empties its
    entry. *)
Lemma SetAddrs_all_zero (ps : gmap string (list (string * Z))) (p : string) :
  peerstore.AddrsOf
    (peerstore.SetAddrs p (peerstore.AddrsOf ps p) 0 ps) p = [].
Proof.
  unfold peerstore.AddrsOf at 1. unfold peerstore.SetAddrs.
  rewrite lookup_insert_eq. simpl. unfold peerstore.AddrsOf.
  destruct (fold_left _ _ _) as [|e l] eqn:E; [reflexivity|].
  assert (He : e ∈ fold_left (peerstore.set1 0) (default [] (ps !! p)).*1
                 (default [] (ps !! p))) by (rewrite E; left).
  apply fold_set1_zero_elem in He as [Hin Hnot].
  exfalso. apply Hnot. apply list_elem_of_fmap. exists e. split; [reflexivity|exact Hin].
Qed.

Lemma Remove_absent (p : string) (rt : list string) : p ∉ kbucket.Remove p rt.
Proof.
  unfold kbucket.Remove. intros Hin.
  apply list_elem_of_filter in Hin as [Hne _]. congruence.
Qed.

(** ** Hello *)

Section Handler.
Context `{External}.

(** [Hello], case by case. *)
Lemma Hello_cases (ns : NetService) (pid : string) :
  let sid := fresh (dom (streams ns)) in
  let addrs := peerstore.AddrsOf (peerstore (node ns)) pid in
    match host ns !! pid with
    | None =>
        Hello ns pid =
        (with_node ns
           (with_routeTable
              (with_peerstore (node ns)
                 (peerstore.SetAddrs pid addrs 0 (peerstore (node ns))))
              (kbucket.Remove pid (routeTable (node ns)))),
         Some NewStreamError)
    | Some s =>
        match addrs with
        | [] => Hello ns pid = (setStream ns sid s, Some WrongPidAddrs)
        | _ :: _ =>
            if writable s then
              Hello ns pid =
              (streamHandler
                 (setStream ns sid
                    (with_outbound s (outbound s ++ nsBuildData ns HELLO HELLO)))
                 sid, None)
            else Hello ns pid = (setStream ns sid s, Some WriteError)
        end
    end.
Proof.
  intros sid addrs. unfold Hello, NewStream. fold sid.
    destruct (host ns !! pid) as [s|] eqn:Hhost; [|reflexivity].
    change (peerstore (node (setStream ns sid s))) with (peerstore (node ns)).
    fold addrs. destruct addrs as [|a0 addrs']; [reflexivity|].
    simpl length. cbn [Nat.ltb Nat.leb].
    unfold writeTo. change (streams (setStream ns sid s)) with (<[sid := s]> (streams ns)).
    rewrite lookup_insert_eq. simpl. unfold Write.
    destruct (writable s); simpl; [|reflexivity].
    unfold setStream at 1. simpl.
    rewrite insert_insert_eq. reflexivity.
Qed.

(** C3 (as amended): [Hello] returns [nil] exactly when the stream could be
    opened, the peer has a known address and the HELLO frame could be
    written; it then has started the receive loop of the new stream as a
    goroutine of its own and nothing else: no reply was read and the node
    (connection statuses, send handles, route table, address book) is as
    before.  A failure to open the stream, a missing address and a failed
    write are returned as errors.  Only a failure to open the stream clears
    the address-book entry of the peer (and takes it out of the route
    table); the other two failures leave the node as it was. *)
Theorem Hello_returns_after_write (ns : NetService) (pid : string) :
  let sid := fresh (dom (streams ns)) in
  let addrs := peerstore.AddrsOf (peerstore (node ns)) pid in
  ((Hello ns pid).2 = None ↔
     ∃ s, host ns !! pid = Some s ∧ addrs ≠ [] ∧ writable s = true)
  ∧ (∀ s, host ns !! pid = Some s → addrs ≠ [] → writable s = true →
       Hello ns pid =
       (streamHandler
          (setStream ns sid
             (with_outbound s (outbound s ++ nsBuildData ns HELLO HELLO)))
          sid, None)
       ∧ node (Hello ns pid).1 = node ns
       ∧ loops (Hello ns pid).1 = loops ns ++ [{| gstream := sid; pc := AtSelect |}]
       ∧ inbound <$> streams (Hello ns pid).1 !! sid = Some (inbound s))
  ∧ ((Hello ns pid).2 = Some NewStreamError ↔ host ns !! pid = None)
  ∧ (host ns !! pid = None →
       peerstore.AddrsOf (peerstore (node (Hello ns pid).1)) pid = []
       ∧ (pid ∉ routeTable (node (Hello ns pid).1)))
  ∧ (∀ s, host ns !! pid = Some s →
       ((Hello ns pid).2 = Some WrongPidAddrs ↔ addrs = [])
       ∧ ((Hello ns pid).2 = Some WriteError ↔ addrs ≠ [] ∧ writable s = false)
       ∧ node (Hello ns pid).1 = node ns).
Proof.
  intros sid addrs.
  assert (Hfresh : streams ns !! sid = None).
  { apply not_elem_of_dom. apply is_fresh. }
  pose proof (Hello_cases ns pid) as Hcases. cbv zeta in Hcases.
  fold sid addrs in Hcases.
  destruct (host ns !! pid) as [s|] eqn:Hhost.
  - destruct addrs as [|a0 addrs'] eqn:Haddrs.
    + rewrite Hcases. simpl.
      split; [split; [discriminate|intros (s' & _ & Hne & _); congruence]|].
      split; [intros s' _ Hne; congruence|].
      split; [split; discriminate|].
      split; [discriminate|].
      intros s' [= <-]. split; [split; reflexivity|].
      split; [|reflexivity]. split; [discriminate|intros [Hne _]; congruence].
    + destruct (writable s) eqn:Hw.
      * rewrite Hcases. simpl.
        split; [split; [intros _; exists s; repeat split; congruence|reflexivity]|].
        split.
        { intros s' [= <-] _ _. split; [reflexivity|]. split; [reflexivity|].
          split; [reflexivity|]. rewrite lookup_insert_eq. reflexivity. }
        split; [split; discriminate|].
        split; [discriminate|].
        intros s' [= <-]. split; [split; discriminate|].
        split; [|reflexivity]. split; [discriminate|intros [_ Hf]; congruence].
      * rewrite Hcases. simpl.
        split; [split; [discriminate|intros (s' & [= <-] & _ & Hw'); congruence]|].
        split; [intros s' [= <-] _ Hw'; congruence|].
        split; [split; discriminate|].
        split; [discriminate|].
        intros s' [= <-]. split; [split; discriminate|].
        split; [|reflexivity]. split; [intros _; split; congruence|reflexivity].
  - rewrite Hcases. simpl.
    split; [split; [discriminate|intros (s' & Hs' & _); discriminate]|].
    split; [intros s' Hs'; discriminate|].
    split; [split; reflexivity|].
    split; [|intros s' Hs'; discriminate].
    intros _. split; [apply SetAddrs_all_zero|apply Remove_absent].
Qed.

End Handler.

Section Concrete.
#[local] Existing Instance Scenario.toy.

(** A dial to peer C, whose address is known and whose stream takes the
    HELLO frame. *)
Lemma Hello_returns_after_write_witness :
  (Hello (Scenario.dialing true) "QmNodeC").2 = None
  ∧ node (Hello (Scenario.dialing true) "QmNodeC").1 = Scenario.nodeAknowsC.
Proof.
  pose proof (Hello_returns_after_write (Scenario.dialing true) "QmNodeC")
    as (_ & Hok & _).
  destruct (Hok (Scenario.toC true) eq_refl) as (Hh & Hnode & _).
  - vm_compute. discriminate.
  - reflexivity.
  - split; [rewrite Hh; reflexivity|exact Hnode].
Defined.

(** C3 as stated fails.  Peer C never answers (nothing arrives on the new
    stream, which stays open): [Hello] has returned [nil] all the same, no
    status and no send handle is recorded for C's address, and the receive
    loop it started waits in its first read.  And when the HELLO frame
    cannot be written, the error is returned with C's address-book entry
    still in place. *)
Lemma Hello_counterexample :
  let r := Hello (Scenario.dialing true) "QmNodeC" in
  let f := Hello (Scenario.dialing false) "QmNodeC" in
  (r.2 = None
   ∧ (inbound <$> streams r.1 !! 0%nat) = Some []
   ∧ (closed <$> streams r.1 !! 0%nat) = Some false
   ∧ conn (node r.1) !! "/ip4/10.0.0.3/tcp/51413" = None
   ∧ stream (node r.1) !! "/ip4/10.0.0.3/tcp/51413" = None
   ∧ loops r.1 = [{| gstream := 0%nat; pc := AtSelect |}]
   ∧ handleMsg r.1 0 = (r.1, WaitRead))
  ∧ (f.2 = Some WriteError
     ∧ peerstore.AddrsOf (peerstore (node f.1)) "QmNodeC"
       = ["/ip4/10.0.0.3/tcp/51413"]).
Proof.
  vm_compute. repeat split; reflexivity.
Qed.

End Concrete.

(** ** Broadcast *)

Lemma broadcastLoop_filter (self : string) (data : list byte)
    (allNode : list string) :
  broadcastLoop self data allNode =
  (λ nodeID, (NEWBLOCK, data, nodeID)) <$> filter (λ q, q ≠ self) allNode.
Proof.
  induction allNode as [|p l IH]; [reflexivity|]. simpl.
  destruct (decide (self = p)) as [->|Hne].
  - rewrite bool_decide_eq_true_2 by reflexivity.
    rewrite filter_cons_False by congruence. exact IH.
  - rewrite bool_decide_eq_false_2 by exact Hne.
    rewrite filter_cons_True by congruence. simpl. rewrite IH. reflexivity.
Qed.

Lemma filter_ne_length (self : string) (l : list string) :
  NoDup l → self ∈ l → S (length (filter (λ q, q ≠ self) l)) = length l.
Proof.
  induction 1 as [|p l Hp Hnd IH]; intros Hin.
  - apply elem_of_nil in Hin. contradiction.
  - destruct (decide (p = self)) as [->|Hne].
    + rewrite filter_cons_False by congruence. simpl. f_equal.
      clear IH Hin. induction l as [|q l IHl]; [reflexivity|].
      apply not_elem_of_cons in Hp as [Hq Hp].
      rewrite filter_cons_True by congruence. simpl. f_equal.
      apply IHl; [exact Hp|]. apply NoDup_cons in Hnd as [_ Hnd]. exact Hnd.
    + rewrite filter_cons_True by exact Hne. simpl. f_equal.
      apply IH. apply elem_of_cons in Hin as [Heq|Hin]; [congruence|exact Hin].
Qed.

Section Handler.
Context `{External}.

(** C7 (as amended): when the block serializes to [data], [Broadcast] over a
    route table listing N distinct identities, the local one among them,
    hands on exactly N-1 sends of a NEWBLOCK frame with [data], one to each
    listed identity other than the local one, and none when the table lists
    the local identity alone; when the block does not serialize, it hands on
    no send at all. *)
Theorem Broadcast_sends (ns : NetService) (block : Block) :
  NoDup (routeTable (node ns)) →
  id (node ns) ∈ routeTable (node ns) →
  (∀ data, Block_Marshal block = Some data →
     S (length (Broadcast ns block)) = length (routeTable (node ns))
     ∧ NoDup (Broadcast ns block)
     ∧ (∀ send, send ∈ Broadcast ns block ↔
          ∃ p, send = (NEWBLOCK, data, p)
               ∧ p ∈ routeTable (node ns) ∧ p ≠ id (node ns))
     ∧ (routeTable (node ns) = [id (node ns)] → Broadcast ns block = []))
  ∧ (Block_Marshal block = None → Broadcast ns block = []).
Proof.
  intros Hnd Hself. split.
  - intros data Hdata. unfold Broadcast. rewrite Hdata.
    unfold kbucket.ListPeers. rewrite broadcastLoop_filter.
    split; [rewrite length_fmap; apply filter_ne_length; assumption|].
    split.
    { apply NoDup_fmap_2; [|apply NoDup_filter, Hnd].
      intros p q [= ->]. reflexivity. }
    split.
    { intros send. rewrite list_elem_of_fmap. split.
      - intros (p & -> & Hp). apply list_elem_of_filter in Hp as [Hne Hp].
        exists p. repeat split; assumption.
      - intros (p & -> & Hp & Hne). exists p. split; [reflexivity|].
        apply list_elem_of_filter. split; assumption. }
    intros ->. rewrite filter_cons_False by congruence. reflexivity.
  - intros Hnone. unfold Broadcast. rewrite Hnone. reflexivity.
Qed.

End Handler.

Section Concrete.
#[local] Existing Instance Scenario.toy.

(** Three listed identities, the local one among them: two sends. *)
Lemma Broadcast_sends_witness :
  length (Broadcast Scenario.serviceABC [x2a]) = 2%nat
  ∧ Broadcast Scenario.serviceABC [] = [].
Proof.
  assert (Hnd : NoDup (routeTable (node Scenario.serviceABC))).
  { apply (bool_decide_unpack _). vm_compute. exact I. }
  assert (Hself : id (node Scenario.serviceABC)
                  ∈ routeTable (node Scenario.serviceABC)).
  { apply (bool_decide_unpack _). vm_compute. exact I. }
  destruct (Broadcast_sends Scenario.serviceABC [x2a] Hnd Hself) as [Hsome _].
  destruct (Broadcast_sends Scenario.serviceABC [] Hnd Hself) as [_ Hnone].
  destruct (Hsome [x0a; x01; x2a] eq_refl) as (Hlen & _).
  split; [|apply Hnone; reflexivity].
  apply Nat.succ_inj. exact Hlen.
Defined.

(** C7 as stated fails for a block that does not serialize: the table lists
    three identities, the local one among them, and no send is handed on. *)
Lemma Broadcast_counterexample :
  NoDup (routeTable (node Scenario.serviceABC))
  ∧ id (node Scenario.serviceABC) ∈ routeTable (node Scenario.serviceABC)
  ∧ length (routeTable (node Scenario.serviceABC)) = 3%nat
  ∧ length (Broadcast Scenario.serviceABC []) = 0%nat.
Proof.
  split; [apply (bool_decide_unpack _); vm_compute; exact I|].
  split; [apply (bool_decide_unpack _); vm_compute; exact I|].
  split; reflexivity.
Qed.

End Concrete.

(** ** Discovery replies *)

Lemma Find_is_Some (rt : list string) (p : string) :
  is_Some (kbucket.Find rt p) ↔ p ∈ rt.
Proof.
  unfold kbucket.Find. destruct (decide (p ∈ rt)) as [Hin|Hnot].
  - rewrite bool_decide_eq_true_2 by exact Hin. split; [intros _; exact Hin|eauto].
  - rewrite bool_decide_eq_false_2 by exact Hnot.
    split; [intros [x Hx]; discriminate|contradiction].
Qed.

Lemma Update_fresh (p : string) (rt : list string) :
  p ∉ rt → kbucket.Update p rt = p :: rt.
Proof.
  intros Hp. unfold kbucket.Update. f_equal.
  induction rt as [|q rt IH]; [reflexivity|].
  apply not_elem_of_cons in Hp as [Hne Hp].
  rewrite filter_cons_True by congruence. f_equal. apply IH, Hp.
Qed.

Lemma find_add1 (a : string) (ttl : Z) (l : list (string * Z)) :
  snd <$> List.find (λ e, bool_decide (e.1 = a)) (peerstore.add1 a ttl l) =
  Some (match snd <$> List.find (λ e, bool_decide (e.1 = a)) l with
        | Some t' => Z.max t' ttl
        | None => ttl
        end).
Proof.
  induction l as [|[a' t'] l IH]; simpl.
  - rewrite bool_decide_eq_true_2 by reflexivity. reflexivity.
  - destruct (decide (a' = a)) as [->|Hne].
    + rewrite !bool_decide_eq_true_2 by reflexivity. simpl.
      rewrite bool_decide_eq_true_2 by reflexivity. reflexivity.
    + rewrite !bool_decide_eq_false_2 by exact Hne. simpl.
      rewrite bool_decide_eq_false_2 by exact Hne. exact IH.
Qed.

(** After [AddAddr] with a positive lifetime the address is recorded with at
    least that lifetime. *)
Lemma ttlOf_AddAddr (ps : gmap string (list (string * Z))) (p a : string)
    (ttl : Z) :
  0 < ttl →
  ∃ t, peerstore.ttlOf (peerstore.AddAddr p a ttl ps) p a = Some t ∧ ttl <= t.
Proof.
  intros Hpos. unfold peerstore.ttlOf, peerstore.AddAddr.
  destruct (Z.leb_spec ttl 0); [lia|].
  rewrite lookup_insert_eq. simpl. rewrite find_add1.
  eexists. split; [reflexivity|]. destruct (snd <$> _); lia.
Qed.

Lemma AddAddr_new (ps : gmap string (list (string * Z))) (p a : string)
    (ttl : Z) :
  0 < ttl → ps !! p = None →
  peerstore.AddrsOf (peerstore.AddAddr p a ttl ps) p = [a]
  ∧ peerstore.ttlOf (peerstore.AddAddr p a ttl ps) p a = Some ttl.
Proof.
  intros Hpos Hnone. unfold peerstore.AddrsOf, peerstore.ttlOf, peerstore.AddAddr.
  destruct (Z.leb_spec ttl 0); [lia|].
  rewrite lookup_insert_eq, Hnone. simpl.
  rewrite bool_decide_eq_true_2 by reflexivity. split; reflexivity.
Qed.

Lemma AddrsOf_AddAddr_nonempty (ps : gmap string (list (string * Z)))
    (p a : string) (ttl : Z) :
  0 < ttl → peerstore.AddrsOf (peerstore.AddAddr p a ttl ps) p ≠ [].
Proof.
  intros Hpos. unfold peerstore.AddrsOf, peerstore.AddAddr.
  destruct (Z.leb_spec ttl 0); [lia|].
  rewrite lookup_insert_eq. simpl.
  destruct (default [] (ps !! p)) as [|[a' t'] l]; simpl; [discriminate|].
  destruct (bool_decide (a' = a)); discriminate.
Qed.

Section Handler.
Context `{External}.

(** What [Hello] does to the node. *)
Lemma Hello_node (ns : NetService) (pid : string) :
  host (Hello ns pid).1 = host ns
  ∧ conn (node (Hello ns pid).1) = conn (node ns)
  ∧ stream (node (Hello ns pid).1) = stream (node ns)
  ∧ ((Hello ns pid).2 ≠ Some NewStreamError → node (Hello ns pid).1 = node ns)
  ∧ ((Hello ns pid).2 = Some NewStreamError →
       host ns !! pid = None
       ∧ routeTable (node (Hello ns pid).1)
         = kbucket.Remove pid (routeTable (node ns))
       ∧ peerstore (node (Hello ns pid).1)
         = peerstore.SetAddrs pid (peerstore.AddrsOf (peerstore (node ns)) pid)
             0 (peerstore (node ns)))
  ∧ ((Hello ns pid).2 = Some WrongPidAddrs →
       peerstore.AddrsOf (peerstore (node ns)) pid = [])
  ∧ ((Hello ns pid).2 = None → is_Some (host ns !! pid)).
Proof.
  pose proof (Hello_cases ns pid) as Hc. cbv zeta in Hc.
  destruct (host ns !! pid) as [s|] eqn:Hhost.
  - destruct (peerstore.AddrsOf (peerstore (node ns)) pid) as [|a0 l] eqn:Ha.
    + rewrite Hc. simpl. repeat split; try reflexivity; try discriminate; eauto.
    + destruct (writable s); rewrite Hc; simpl;
        repeat split; try reflexivity; try discriminate; eauto.
  - rewrite Hc. simpl. repeat split; try reflexivity; try discriminate.
    intros Hf. exfalso. apply Hf. reflexivity.
Qed.

End Handler.

Section Handler.
Context `{External}.

(** C6 (as amended): in the loop over a SYNCROUTEREPLY, a candidate that is
    listed in the route table or has no address is skipped, with no
    handshake and no change.  Any other candidate has its first address
    registered with the short lifetime and [Hello] is called on it; when
    [Hello] succeeds the address is registered with the long lifetime and the
    candidate is put into the route table; when [Hello] fails in writing,
    the candidate stays out of the route table and the short-lived
    registration is all that was done; when [Hello] fails in opening the
    stream, the candidate stays out of the route table and its whole
    address-book entry is cleared, the short-lived address with it. *)
Theorem syncRouteReply_candidate (ns : NetService) (c : peerstore.PeerInfo)
    (rest : list peerstore.PeerInfo) :
  let n := node ns in
  let pid := peerstore.ID c in
  ((pid ∈ routeTable n ∨ peerstore.Addrs c = []) →
     syncRouteReply ns (c :: rest) = syncRouteReply ns rest)
  ∧ (∀ a0 more, pid ∉ routeTable n → peerstore.Addrs c = a0 :: more →
       let ps1 := peerstore.AddAddr pid a0 peerstore.TempAddrTTL (peerstore n) in
       let r := Hello (with_node ns (with_peerstore n ps1)) pid in
       (r.2 = None →
          ∃ ns3, syncRouteReply ns (c :: rest) = syncRouteReply ns3 rest
            ∧ routeTable (node ns3) = pid :: routeTable n
            ∧ peerstore (node ns3)
              = peerstore.AddAddr pid a0 peerstore.PermanentAddrTTL ps1
            ∧ (∃ t, peerstore.ttlOf (peerstore (node ns3)) pid a0 = Some t
                    ∧ peerstore.PermanentAddrTTL <= t))
       ∧ (r.2 = Some WriteError →
            syncRouteReply ns (c :: rest) = syncRouteReply r.1 rest
            ∧ routeTable (node r.1) = routeTable n
            ∧ peerstore (node r.1) = ps1
            ∧ (∃ t, peerstore.ttlOf (peerstore (node r.1)) pid a0 = Some t
                    ∧ peerstore.TempAddrTTL <= t))
       ∧ (r.2 = Some NewStreamError →
            syncRouteReply ns (c :: rest) = syncRouteReply r.1 rest
            ∧ (pid ∉ routeTable (node r.1))
            ∧ peerstore.AddrsOf (peerstore (node r.1)) pid = [])
       ∧ r.2 ≠ Some WrongPidAddrs).
Proof.
  intros n pid. split.
  - intros Hskip. simpl. fold n pid.
    destruct Hskip as [Hin|Hnil].
    + rewrite (bool_decide_eq_true_2 (is_Some _))
        by (apply Find_is_Some, Hin). reflexivity.
    + rewrite Hnil. rewrite (bool_decide_eq_true_2 (length _ = _)) by reflexivity.
      rewrite orb_true_r. reflexivity.
  - intros a0 more Hnot Haddrs ps1 r.
    assert (Hstep : syncRouteReply ns (c :: rest) =
              match r.2 with
              | Some _ => syncRouteReply r.1 rest
              | None =>
                  syncRouteReply
                    (with_node r.1
                       (with_routeTable
                          (with_peerstore (node r.1)
                             (peerstore.AddAddr pid a0
                                peerstore.PermanentAddrTTL
                                (peerstore (node r.1))))
                          (kbucket.Update pid (routeTable (node r.1)))))
                    rest
              end).
    { simpl. fold n pid.
      rewrite (bool_decide_eq_false_2 (is_Some _))
        by (rewrite Find_is_Some; exact Hnot).
      rewrite Haddrs.
      rewrite (bool_decide_eq_false_2 (length _ = _)) by discriminate.
      simpl. fold ps1. fold r. destruct r as [ns2 [e|]]; reflexivity. }
    pose proof (Hello_node (with_node ns (with_peerstore n ps1)) pid)
      as (_ & _ & _ & Hsame & Hdial & Hwrong & _).
    fold r in Hsame, Hdial, Hwrong.
    change (node (with_node ns (with_peerstore n ps1)))
      with (with_peerstore n ps1) in Hsame, Hdial, Hwrong.
    change (peerstore (with_peerstore n ps1)) with ps1 in Hdial, Hwrong.
    change (routeTable (with_peerstore n ps1)) with (routeTable n) in Hdial.
    assert (Hpos : 0 < peerstore.TempAddrTTL) by (unfold peerstore.TempAddrTTL; lia).
    assert (Hpos' : 0 < peerstore.PermanentAddrTTL)
      by (unfold peerstore.PermanentAddrTTL; lia).
    split; [|split; [|split]].
    + intros Hok. rewrite Hok in Hstep.
      rewrite Hsame in Hstep by (rewrite Hok; discriminate).
      eexists. split; [exact Hstep|]. simpl.
      split; [apply Update_fresh, Hnot|]. split; [reflexivity|].
      apply ttlOf_AddAddr, Hpos'.
    + intros Hw. rewrite Hw in Hstep.
      rewrite Hsame by (rewrite Hw; discriminate). simpl.
      split; [exact Hstep|]. split; [reflexivity|]. split; [reflexivity|].
      apply ttlOf_AddAddr, Hpos.
    + intros Hd. rewrite Hd in Hstep. split; [exact Hstep|].
      destruct (Hdial Hd) as (_ & -> & ->).
      split; [apply Remove_absent|apply SetAddrs_all_zero].
    + intros Hw. apply Hwrong in Hw.
      exact (AddrsOf_AddAddr_nonempty _ _ _ _ Hpos Hw).
Qed.

End Handler.

Section Concrete.
#[local] Existing Instance Scenario.toy.

(** Candidate C, reachable: it enters the route table of node A. *)
Lemma syncRouteReply_candidate_witness :
  ∃ ns3,
    syncRouteReply (Scenario.dialing true) [Scenario.candidateC]
    = syncRouteReply ns3 []
    ∧ routeTable (node ns3) = ["QmNodeC"].
Proof.
  pose proof (proj2 (syncRouteReply_candidate (Scenario.dialing true)
                       Scenario.candidateC [])
                "/ip4/10.0.0.3/tcp/51413" []) as Hc.
  destruct Hc as (Hok & _).
  - apply (bool_decide_unpack _). vm_compute. exact I.
  - reflexivity.
  - destruct Hok as (ns3 & Hs & Hrt & _); [vm_compute; reflexivity|].
    exists ns3. split; [exact Hs|exact Hrt].
Defined.

(** C6 as stated fails when the handshake fails in opening the stream: node
    A receives a reply naming candidate C, which it does not list, and its
    host cannot dial C; afterwards C is not in the route table and no
    address of C is left in the address book, the short-lived one neither. *)
Lemma syncRouteReply_counterexample :
  let frame := buildData 7 x01 Scenario.replyC SYNCROUTEREPLY in
  let r := handleMsg (Scenario.serviceA frame) 0 in
  json_Unmarshal Scenario.replyC = [Scenario.candidateC]
  ∧ (Hello (with_node (Scenario.serviceA [])
             (with_peerstore Scenario.nodeA
                (peerstore.AddAddr "QmNodeC" "/ip4/10.0.0.3/tcp/51413"
                   peerstore.TempAddrTTL ∅))) "QmNodeC").2
    = Some NewStreamError
  ∧ r.2 = Continue
  ∧ routeTable (node r.1) = []
  ∧ peerstore.AddrsOf (peerstore (node r.1)) "QmNodeC" = []
  ∧ peerstore.ttlOf (peerstore (node r.1)) "QmNodeC" "/ip4/10.0.0.3/tcp/51413"
    = None.
Proof.
  vm_compute. repeat split; reflexivity.
Qed.

End Concrete.

(** ** The local identity and the route table *)

Lemma ReadUint32_peer (s s' : Stream) (n : Z) (data : list byte) :
  ReadUint32 s n = ReadOk data s' → RemotePeer s' = RemotePeer s.
Proof.
  unfold ReadUint32. destruct (n <=? _); [|destruct (closed s); discriminate].
  intros [= _ <-]. reflexivity.
Qed.

Lemma ReadUint32_err_peer (s s' : Stream) (n : Z) :
  ReadUint32 s n = ReadErr s' → RemotePeer s' = RemotePeer s.
Proof.
  unfold ReadUint32. destruct (n <=? _); [discriminate|].
  destruct (closed s); [|discriminate]. intros [= <-]. reflexivity.
Qed.

(** The stream the receive path leaves behind is the stream it was given,
    with less to read. *)
Lemma receive_peer (n : Node) (s : Stream) :
  match receive n s with
  | RxWait => True
  | RxHeaderReadError s' | RxPanic s' | RxRejected _ s' | RxDataReadError s'
  | RxChecksumError s' | RxFrame _ _ s' => RemotePeer s' = RemotePeer s
  end.
Proof.
  unfold receive.
  destruct (ReadUint32 s 36) as [dataHeader s1| s1 |] eqn:Hh; [| |exact I].
  2:{ exact (ReadUint32_err_peer _ _ _ Hh). }
  apply ReadUint32_peer in Hh.
  destruct (msgNameStr _); [|exact Hh].
  destruct (verifyHeader _ _ _ _); [|exact Hh].
  destruct (byteutils.Uint32 _) as [len|]; [|exact Hh].
  destruct (ReadUint32 s1 len) as [data s2| s2 |] eqn:Hd; [| |exact I].
  2:{ apply ReadUint32_err_peer in Hd. congruence. }
  apply ReadUint32_peer in Hd.
  destruct (bool_decide _); congruence.
Qed.

Lemma not_elem_of_Update (self p : string) (rt : list string) :
  p ≠ self → self ∉ rt → self ∉ kbucket.Update p rt.
Proof.
  intros Hne Hrt. unfold kbucket.Update. apply not_elem_of_cons.
  split; [congruence|]. intros Hin.
  apply list_elem_of_filter in Hin as [_ Hin]. contradiction.
Qed.

Lemma not_elem_of_Remove (self p : string) (rt : list string) :
  self ∉ rt → self ∉ kbucket.Remove p rt.
Proof.
  intros Hrt Hin. unfold kbucket.Remove in Hin.
  apply list_elem_of_filter in Hin as [_ Hin]. contradiction.
Qed.

Section Handler.
Context `{External}.

Lemma SelfFree_setStream (self : string) (ns : NetService) (sid : nat)
    (s : Stream) :
  SelfFree self ns → RemotePeer s ≠ self → SelfFree self (setStream ns sid s).
Proof.
  intros (Hid & Hrt & Hh & Hs & Hd) Hp.
  repeat split; try assumption.
  intros sid' s' Hl. simpl in Hl.
  destruct (decide (sid = sid')) as [->|Hne].
  - rewrite lookup_insert_eq in Hl. congruence.
  - rewrite lookup_insert_ne in Hl by exact Hne. eauto.
Qed.

(** A change of the node that keeps the identity and adds nothing but peers
    other than [self] to the route table. *)
Lemma SelfFree_with_node (self : string) (ns : NetService) (n : Node) :
  SelfFree self ns → id n = self → self ∉ routeTable n →
  SelfFree self (with_node ns n).
Proof.
  intros (Hid & Hrt & Hh & Hs & Hd) Hn Hrt'. repeat split; assumption.
Qed.

Lemma SelfFree_writeTo (self : string) (ns ns' : NetService) (sid : nat)
    (data : list byte) :
  SelfFree self ns → writeTo ns sid data = Some ns' → SelfFree self ns'.
Proof.
  intros Hinv Hw. unfold writeTo in Hw.
  destruct (streams ns !! sid) as [s|] eqn:Hs; [|discriminate]. simpl in Hw.
  unfold Write in Hw. destruct (writable s); [|discriminate].
  simpl in Hw. injection Hw as <-.
  apply SelfFree_setStream; [exact Hinv|]. simpl.
  destruct Hinv as (_ & _ & _ & Hst & _). eauto.
Qed.

Lemma writeTo_node (ns ns' : NetService) (sid : nat) (data : list byte) :
  writeTo ns sid data = Some ns' → node ns' = node ns.
Proof.
  unfold writeTo. destruct (streams ns !! sid) as [s|]; [|discriminate].
  simpl. destruct (Write s data); [|discriminate]. simpl.
  intros [= <-]. reflexivity.
Qed.

Lemma SelfFree_Hello (self : string) (ns : NetService) (pid : string) :
  SelfFree self ns → SelfFree self (Hello ns pid).1.
Proof.
  intros Hinv. pose proof Hinv as (Hid & Hrt & Hh & Hs & Hd).
  pose proof (Hello_cases ns pid) as Hc. cbv zeta in Hc.
  destruct (host ns !! pid) as [s|] eqn:Hhost.
  - assert (Hp : RemotePeer s ≠ self).
    { exact (Hd pid s Hhost). }
    destruct (peerstore.AddrsOf _ _) as [|a0 l].
    + rewrite Hc. simpl. apply SelfFree_setStream; assumption.
    + destruct (writable s); rewrite Hc; simpl.
      * pose proof (SelfFree_setStream self ns (fresh (dom (streams ns)))
                      (with_outbound s (outbound s ++ nsBuildData ns HELLO HELLO))
                      Hinv Hp) as (H1 & H2 & H3 & H4 & H5).
        repeat split; assumption.
      * apply SelfFree_setStream; assumption.
  - rewrite Hc. simpl. apply SelfFree_with_node; [exact Hinv|exact Hid|].
    simpl. apply not_elem_of_Remove, Hrt.
Qed.

Lemma SelfFree_syncRouteReply (self : string)
    (sample : list peerstore.PeerInfo) (ns : NetService) :
  SelfFree self ns → SelfFree self (syncRouteReply ns sample).
Proof.
  revert ns. induction sample as [|c sample IH]; intros ns Hinv; [exact Hinv|].
  simpl. destruct (_ || _); [apply IH, Hinv|].
  destruct (peerstore.Addrs c) as [|a0 more]; [exact Hinv|].
  set (ns1 := with_node ns _).
  assert (Hinv1 : SelfFree self ns1).
  { destruct Hinv as (Hid & Hrt & Hh & Hs & Hd).
    apply SelfFree_with_node; [repeat split; assumption|exact Hid|exact Hrt]. }
  pose proof (SelfFree_Hello self ns1 (peerstore.ID c) Hinv1) as Hinv2.
  pose proof (Hello_node ns1 (peerstore.ID c)) as (Hhost & _ & _ & _ & _ & _ & Hok).
  destruct (Hello ns1 (peerstore.ID c)) as [ns2 [e|]]; simpl in *.
  - apply IH, Hinv2.
  - apply IH. pose proof Hinv2 as (Hid & Hrt & Hh & Hs & Hd).
    apply SelfFree_with_node; [exact Hinv2|exact Hid|]. simpl.
    apply not_elem_of_Update; [|exact Hrt].
    destruct (Hok eq_refl) as [s Hs'].
    destruct Hinv1 as (_ & _ & Hh1 & _). intros Heq. rewrite Heq in Hs'.
    congruence.
Qed.

Lemma SelfFree_resume (self : string) (ns : NetService) (k : Resume) :
  SelfFree self ns → SelfFree self (resume ns k).1.
Proof.
  intros Hinv. destruct k as [pb|b]; simpl.
  - unfold newblockFromProto. destruct (Block_FromProto pb) as [b [|]];
      simpl; [exact Hinv|]. destruct Hinv as (?&?&?&?&?). repeat split; assumption.
  - destruct Hinv as (?&?&?&?&?). repeat split; assumption.
Qed.

Lemma SelfFree_dispatch (self : string) (ns : NetService) (sid : nat)
    (pid addrs : string) (name data : list byte) :
  SelfFree self ns → pid ≠ self →
  SelfFree self (dispatch ns sid pid addrs name data).1.
Proof.
  intros Hinv Hpid. pose proof Hinv as (Hid & Hrt & Hh & Hs & Hd).
  unfold dispatch.
  destruct (bool_decide (name = HELLO)).
  { destruct (writeTo ns sid _) as [ns'|] eqn:Hw; [|exact Hinv]. simpl.
    pose proof (SelfFree_writeTo _ _ _ _ _ Hinv Hw) as Hinv'.
    pose proof Hinv' as (Hid' & Hrt' & _).
    apply SelfFree_with_node; [exact Hinv'|exact Hid'|]. simpl.
    apply not_elem_of_Update; assumption. }
  destruct (bool_decide (name = OK)).
  { destruct (bool_decide (data = OK)); [|exact Hinv]. simpl.
    apply SelfFree_with_node; [exact Hinv|exact Hid|]. simpl.
    apply not_elem_of_Update; assumption. }
  destruct (bool_decide (name = BYE)); [exact Hinv|].
  destruct (bool_decide (name = NEWBLOCK)).
  { unfold newblock. destruct (proto_Unmarshal data) as [pb [|]];
      [exact Hinv|].
    exact (SelfFree_resume self ns (AfterUnmarshal pb) Hinv). }
  destruct (bool_decide (name = SYNCROUTE)).
  { destruct (json_Marshal _) as [d|]; [|exact Hinv].
    destruct (stream (node ns) !! addrs) as [sid'|]; [|exact Hinv].
    destruct (writeTo ns sid' _) as [ns'|] eqn:Hw; [|exact Hinv]. simpl.
    pose proof (SelfFree_writeTo _ _ _ _ _ Hinv Hw) as Hinv'.
    pose proof Hinv' as (Hid' & Hrt' & _).
    apply SelfFree_with_node; [exact Hinv'|exact Hid'|]. simpl.
    apply not_elem_of_Update; assumption. }
  destruct (bool_decide (name = SYNCROUTEREPLY)); [|exact Hinv].
  simpl. apply SelfFree_syncRouteReply, Hinv.
Qed.

Lemma SelfFree_byeAndBreak (self : string) (ns : NetService)
    (pid addr : string) :
  SelfFree self ns → SelfFree self (byeAndBreak ns pid addr).1.
Proof.
  intros Hinv. pose proof Hinv as (Hid & Hrt & _).
  unfold byeAndBreak. simpl.
  apply SelfFree_with_node; [exact Hinv|exact Hid|]. simpl.
  apply not_elem_of_Remove, Hrt.
Qed.

Lemma SelfFree_handleMsg (self : string) (ns : NetService) (sid : nat) :
  SelfFree self ns → SelfFree self (handleMsg ns sid).1.
Proof.
  intros Hinv. unfold handleMsg.
  destruct (streams ns !! sid) as [s|] eqn:Hs; [|exact Hinv].
  assert (Hp : RemotePeer s ≠ self).
  { destruct Hinv as (_ & _ & _ & Hst & _). eauto. }
  pose proof (receive_peer (node ns) s) as Hrx.
  destruct (receive (node ns) s) as [|s'|s'|e s'|s'|s'|name data s'];
    [exact Hinv|..];
    assert (Hinv' : SelfFree self (setStream ns sid s'))
      by (apply SelfFree_setStream; [exact Hinv|congruence]).
  - apply SelfFree_byeAndBreak, Hinv'.
  - exact Hinv'.
  - apply SelfFree_byeAndBreak, Hinv'.
  - apply SelfFree_byeAndBreak, Hinv'.
  - exact Hinv'.
  - apply SelfFree_dispatch; assumption.
Qed.

(** The book-keeping of the goroutines touches neither the node, nor the
    streams, nor the host. *)
Lemma SelfFree_loops (self : string) (ns ns' : NetService) :
  node ns' = node ns → streams ns' = streams ns → host ns' = host ns →
  SelfFree self ns → SelfFree self ns'.
Proof.
  intros Hn Hs Hh. unfold SelfFree. rewrite Hn, Hs, Hh. tauto.
Qed.

Lemma SelfFree_settle (self : string) (i : nat) (r : NetService * Flow) :
  SelfFree self r.1 → SelfFree self (settle i r).
Proof.
  destruct r as [ns f]. simpl. intros Hinv.
  destruct f; (eapply SelfFree_loops; [..|exact Hinv]); reflexivity.
Qed.

Lemma SelfFree_step (self : string) (ns ns' : NetService) (i : nat) :
  SelfFree self ns → step ns i = Some ns' → SelfFree self ns'.
Proof.
  intros Hinv. unfold step.
  destruct (loops ns !! i) as [g|]; [|discriminate]. simpl.
  destruct (existsb crashed (loops ns)); [discriminate|].
  destruct (pc g) as [| |k|k| |]; try discriminate.
  - destruct (quitCh ns) as [|j q].
    + intros [= <-]. eapply SelfFree_loops; [..|exact Hinv]; reflexivity.
    + destruct (loops ns !! j) as [gj|]; [|discriminate]. simpl.
      destruct (pc gj); try discriminate.
      intros [= <-]. eapply SelfFree_loops; [..|exact Hinv]; reflexivity.
  - pose proof (SelfFree_handleMsg self ns (gstream g) Hinv) as Hh.
    destruct (handleMsg ns (gstream g)) as [ns1 f].
    destruct f; try discriminate; intros [= <-];
      (eapply SelfFree_loops; [..|exact Hh]); reflexivity.
  - intros [= <-]. apply SelfFree_settle, SelfFree_resume, Hinv.
Qed.

Lemma SelfFree_run (self : string) (sched : list nat) (ns ns' : NetService) :
  SelfFree self ns → run ns sched = Some ns' → SelfFree self ns'.
Proof.
  revert ns. induction sched as [|i sched IH]; intros ns Hinv; simpl.
  - intros [= <-]. exact Hinv.
  - destruct (step ns i) as [ns1|] eqn:Hstep; [|discriminate]. simpl.
    apply IH. exact (SelfFree_step self ns ns1 i Hinv Hstep).
Qed.

End Handler.

Section Handler.
Context `{External}.

(** C5 (as amended): the handlers put into the route table the remote peer
    of the connection (HELLO, OK, SYNCROUTE) and the candidate whose
    handshake succeeded (SYNCROUTEREPLY), without comparing either with the
    local identity.  So, along every schedule of the receive loops, the
    route table stays without the local identity provided that it is
    without it at the start, that no stream, open at the start or opened by
    the host on a dial, has the local identity as its remote peer, and that
    the host opens no stream on a dial of the local identity. *)
Theorem route_table_without_self (ns ns' : NetService) (sched : list nat) :
  id (node ns) ∉ routeTable (node ns) →
  (∀ sid s, streams ns !! sid = Some s → RemotePeer s ≠ id (node ns)) →
  (∀ p s, host ns !! p = Some s → RemotePeer s ≠ id (node ns)) →
  host ns !! id (node ns) = None →
  run ns sched = Some ns' →
  id (node ns') = id (node ns) ∧ id (node ns') ∉ routeTable (node ns').
Proof.
  intros Hrt Hs Hd Hh Hrun.
  assert (Hinv : SelfFree (id (node ns)) ns) by (repeat split; assumption).
  destruct (SelfFree_run _ sched ns ns' Hinv Hrun) as (Hid & Hrt' & _).
  split; [exact Hid|]. rewrite Hid. exact Hrt'.
Qed.

End Handler.

Section Concrete.
#[local] Existing Instance Scenario.toy.

(** In a session with peer B (its HELLO, an OK, a SYNCROUTE and a
    SYNCROUTEREPLY naming peer C, which the host can dial) B and C enter
    the route table of node A, and A does not. *)
Lemma route_table_without_self_witness :
  match run (Scenario.discovering Scenario.session)
          [0; 0; 0; 0; 0; 0; 0; 0]%nat with
  | Some ns' =>
      routeTable (node ns') = ["QmNodeC"; "QmNodeB"]
      ∧ id (node ns') ∉ routeTable (node ns')
  | None => False
  end.
Proof.
  assert (Hrun : ∃ ns', run (Scenario.discovering Scenario.session)
                          [0; 0; 0; 0; 0; 0; 0; 0]%nat = Some ns'
                        ∧ routeTable (node ns') = ["QmNodeC"; "QmNodeB"]).
  { eexists. split; vm_compute; reflexivity. }
  destruct Hrun as (ns' & Hrun & Hrt). rewrite Hrun.
  split; [exact Hrt|].
  refine (proj2 (route_table_without_self
                   (Scenario.discovering Scenario.session) ns'
                   [0; 0; 0; 0; 0; 0; 0; 0]%nat _ _ _ _ Hrun)).
  - apply not_elem_of_nil.
  - intros sid s Hs. change (streams _) with
      ({[ 0%nat := Scenario.fromB Scenario.session ]} : gmap nat Stream) in Hs.
    apply lookup_singleton_Some in Hs as [_ <-]. discriminate.
  - intros p s Hs. change (host _) with
      ({[ "QmNodeC" := Scenario.toC true ]} : gmap string Stream) in Hs.
    apply lookup_singleton_Some in Hs as [_ <-]. discriminate.
  - reflexivity.
Defined.

(** C5 as stated fails: no update of the route table compares the identity
    with the local one.  Peer B answers a SYNCROUTE of node A with a list
    that names A itself; where the host opens a stream to the local
    identity, the handshake succeeds and A lists itself.  And a route table
    that lists the local identity at the start, the table [Broadcast]
    provides for when it skips the local identity, lists it after the
    updates as well. *)
Lemma route_table_without_self_counterexample :
  (let frame := buildData 7 x01 Scenario.replyA SYNCROUTEREPLY in
   id (node (Scenario.selfDialing frame)) = "QmNodeA"
   ∧ routeTable (node (Scenario.selfDialing frame)) = []
   ∧ json_Unmarshal Scenario.replyA = [Scenario.candidateA]
   ∧ (routeTable ∘ node <$> run (Scenario.selfDialing frame) [0; 0]%nat)
     = Some ["QmNodeA"])
  ∧ (let hello := buildData 7 x01 HELLO HELLO in
     id (node (Scenario.listedSelf hello)) = "QmNodeA"
     ∧ routeTable (node (Scenario.listedSelf hello)) = ["QmNodeA"]
     ∧ (routeTable ∘ node <$> run (Scenario.listedSelf hello) [0; 0]%nat)
       = Some ["QmNodeB"; "QmNodeA"]).
Proof.
  cbv zeta. repeat split; vm_compute; reflexivity.
Qed.

End Concrete.

(** ** A block that does not decode *)

Section Concrete.
#[local] Existing Instance Scenario.toy.

(** C1 does not hold of the code.  Node A has two connections.  The
    NEWBLOCK payload arriving from peer B does not decode; the loop of B's
    connection then sends on the shared [quitCh] and waits there.  The loop
    of C's connection, which was serving a BYE frame, comes back to its
    [select], receives the value and ends.  The loop of B's connection goes
    on: it hands the block to the dispatcher and is back at its [select].
    No [Bye] was run for either connection. *)
Theorem undecodable_block_ends_other_loop :
  (proto_Unmarshal Scenario.cutBlock).2 = true
  ∧ ((λ ns, pc <$> loops ns) <$> run Scenario.twoConnections [0; 0]%nat)
    = Some [OnQuitCh (AfterUnmarshal [x2a]); AtSelect]
  ∧ (let final := run Scenario.twoConnections [0; 1; 0; 1; 1; 0]%nat in
     ((λ ns, pc <$> loops ns) <$> final) = Some [AtSelect; Ended]
     ∧ (dispatcher <$> final) = Some [(NEWBLOCK, [x2a] : Block)]
     ∧ (node <$> final) = Some Scenario.nodeA).
Proof.
  vm_compute. repeat split; reflexivity.
Qed.

End Concrete.

(** * Further properties of the code *)

(** ** The layout of a built frame *)

(** X1: [buildHeader] gives 32 bytes whatever the name; the magic number,
    chain id, version, payload length and payload checksum stand at their
    offsets even under a name longer than its field, which is cut to 12
    bytes; a shorter name is followed by zero bytes. *)
Theorem buildHeader_layout (c : Z) (name : list byte) (v : byte) (len crc : Z) :
  length (buildHeader c name v len crc) = 32%nat
  ∧ sliceHeader (buildHeader c name v len crc) =
    {| magicNumber := MagicNumber;
       chainIDField := byteutils.FromUint32 c;
       versionField := [v];
       msgName := take 12 name ++ replicate (12 - length name) x00;
       dataLength := byteutils.FromUint32 len;
       dataChecksum := byteutils.FromUint32 crc |}
  ∧ slice (buildHeader c name v len crc) 8 11 = [x00; x00; x00].
Proof.
  split; [apply buildHeader_length|]. split.
  - rewrite <- (app_nil_r (buildHeader c name v len crc)) at 1.
    apply sliceHeader_buildHeader.
  - unfold buildHeader.
    set (h := copy_at (copy_at (copy_at _ 0 _) 4 _) 11 _).
    assert (Hh : length h = 32%nat) by (unfold h; length32).
    assert (Hx : length (copy_at h 12 name) = 32%nat)
      by (apply copy_at_length32; [exact Hh|lia]).
    rewrite slice_copy_at_below by (rewrite copy_at_length32; [lia| |lia]; exact Hx).
    rewrite slice_copy_at_below by lia.
    rewrite slice_copy_at_below by lia. reflexivity.
Qed.

(** X2: a frame is the 32 header bytes, the CRC-32 of those 32 bytes, and
    the payload as it was given: 36 bytes more than the payload. *)
Theorem buildData_layout (c : Z) (v : byte) (data name : list byte) :
  length (buildData c v data name) = (36 + length data)%nat
  ∧ drop 36 (buildData c v data name) = data
  ∧ take 32 (buildData c v data name)
    = buildHeader c name v (wrap32 (Z.of_nat (length data)))
        (crc32.ChecksumIEEE data)
  ∧ slice (buildData c v data name) 32 36
    = byteutils.FromUint32
        (crc32.ChecksumIEEE (take 32 (buildData c v data name))).
Proof.
  unfold buildData.
  set (h := buildHeader _ _ _ _ _).
  assert (Hh : length h = 32%nat) by apply buildHeader_length.
  assert (Ht : take 32 ((h ++ byteutils.FromUint32 (crc32.ChecksumIEEE h)) ++ data) = h).
  { rewrite <- app_assoc. apply take_app_length'. symmetry. exact Hh. }
  split; [rewrite !length_app, Hh, FromUint32_length; lia|].
  split; [apply drop_app_length'; rewrite length_app, Hh, FromUint32_length; reflexivity|].
  split; [exact Ht|].
  rewrite Ht. unfold slice. rewrite <- app_assoc.
  rewrite drop_app_length' by (symmetry; exact Hh).
  apply take_app_length'. reflexivity.
Qed.

(** ** What the receive path looks at *)

Lemma sliceHeader_prefix (h32 c : list byte) :
  length h32 = 32%nat → sliceHeader (h32 ++ c) = sliceHeader h32.
Proof.
  intros Hh. unfold sliceHeader.
  rewrite !(slice_app_l h32) by lia. reflexivity.
Qed.

(** X3: the header checksum, bytes 32 to 35 of a frame, is read and never
    compared: two arrivals that differ in those four bytes only are treated
    alike. *)
Theorem header_checksum_ignored (n : Node) (s : Stream)
    (h32 c c' tail : list byte) :
  length h32 = 32%nat → length c = 4%nat → length c' = 4%nat →
  receive n (with_inbound s (h32 ++ c ++ tail))
  = receive n (with_inbound s (h32 ++ c' ++ tail)).
Proof.
  intros Hh Hc Hc'. unfold receive.
  rewrite (ReadUint32_app (with_inbound s (h32 ++ c ++ tail)) (h32 ++ c) tail)
    by (rewrite ?app_assoc, ?length_app, ?Hh, ?Hc; reflexivity).
  rewrite (ReadUint32_app (with_inbound s (h32 ++ c' ++ tail)) (h32 ++ c') tail)
    by (rewrite ?app_assoc, ?length_app, ?Hh, ?Hc'; reflexivity).
  rewrite !sliceHeader_prefix by exact Hh. reflexivity.
Qed.

(** A frame of node A's chain whose header checksum was overwritten with
    zeros is received like the frame itself. *)
Lemma header_checksum_ignored_witness :
  receive Scenario.nodeA
    (with_inbound (Scenario.fromB [])
       (take 32 (buildData 7 x01 OK OK) ++ [x00; x00; x00; x00] ++ OK))
  = RxFrame OK OK (Scenario.fromB []).
Proof.
  rewrite (header_checksum_ignored Scenario.nodeA (Scenario.fromB [])
             (take 32 (buildData 7 x01 OK OK)) [x00; x00; x00; x00]
             (slice (buildData 7 x01 OK OK) 32 36) OK);
    [|reflexivity..].
  vm_compute. reflexivity.
Defined.

(** X4: the name the handler extracts is what stands in the name field
    before its first zero byte, and there is none exactly when the field
    holds no zero byte. *)
Theorem msgNameStr_spec (field : list byte) :
  (msgNameStr field = None ↔ x00 ∉ field)
  ∧ (∀ name, msgNameStr field = Some name ↔
       (x00 ∉ name) ∧ ∃ post, field = name ++ x00 :: post).
Proof.
  assert (Hsplit : x00 ∈ field →
            ∃ pre post, field = pre ++ x00 :: post ∧ x00 ∉ pre).
  { induction field as [|b f IH]; intros Hin.
    - apply elem_of_nil in Hin. contradiction.
    - destruct (decide (b = x00)) as [->|Hne].
      + exists [], f. split; [reflexivity|apply not_elem_of_nil].
      + apply elem_of_cons in Hin as [Heq|Hin]; [congruence|].
        destruct (IH Hin) as (pre & post & -> & Hpre).
        exists (b :: pre), post. split; [reflexivity|].
        apply not_elem_of_cons. split; [congruence|exact Hpre]. }
  split.
  - split; [|apply msgNameStr_unterminated].
    intros Hnone. intros Hin.
    destruct (Hsplit Hin) as (pre & post & -> & Hpre).
    rewrite msgNameStr_terminated in Hnone by exact Hpre. discriminate.
  - intros name. split.
    + intros Hsome. destruct (decide (x00 ∈ field)) as [Hin|Hnot].
      * destruct (Hsplit Hin) as (pre & post & -> & Hpre).
        rewrite msgNameStr_terminated in Hsome by exact Hpre.
        injection Hsome as <-. split; [exact Hpre|]. exists post. reflexivity.
      * rewrite msgNameStr_unterminated in Hsome by exact Hnot. discriminate.
    + intros (Hname & post & ->). apply msgNameStr_terminated, Hname.
Qed.

(** ** The cases of the message switch *)

(** The receive path on a frame built for the node's chain and version. *)
Lemma receive_frame (n : Node) (s : Stream) (name data rest : list byte) :
  0 <= chainID n < 2^32 → (length name ≤ 11)%nat → x00 ∉ name →
  Z.of_nat (length data) < 2^32 →
  inbound s = buildData (chainID n) (version n) data name ++ rest →
  receive n s = RxFrame name data (with_inbound s rest).
Proof.
  intros Hc Hlen Hname Hdata Hs.
  rewrite (receive_buildData n s name data rest Hc Hlen Hname Hs).
  rewrite ReadUint32_exact by exact Hdata.
  rewrite bool_decide_eq_true_2 by reflexivity. reflexivity.
Qed.

Section Handler.
Context `{External}.

Lemma handleMsg_frame (ns : NetService) (sid : nat) (s : Stream)
    (name data rest : list byte) :
  streams ns !! sid = Some s →
  0 <= chainID (node ns) < 2^32 → (length name ≤ 11)%nat → x00 ∉ name →
  Z.of_nat (length data) < 2^32 →
  inbound s = nsBuildData ns data name ++ rest →
  handleMsg ns sid =
  dispatch (setStream ns sid (with_inbound s rest)) sid (RemotePeer s)
    (RemoteMultiaddr s) name data.
Proof.
  intros Hs Hc Hlen Hname Hdata Hin.
  rewrite (handleMsg_receive ns sid s Hs).
  rewrite (receive_frame (node ns) s name data rest Hc Hlen Hname Hdata Hin).
  reflexivity.
Qed.

(** X5: a HELLO frame, whatever its payload, is answered with an OK frame
    on the stream it came on; once that is written the stream is recorded as
    the send handle of the remote address, the address is marked connected
    and the remote peer is put to the front of the route table.  When the
    answer cannot be written the loop ends and the node is as before: no
    [Bye] is run. *)
Theorem HELLO_registers (ns : NetService) (sid : nat) (s : Stream)
    (data rest : list byte) :
  streams ns !! sid = Some s →
  0 <= chainID (node ns) < 2^32 →
  Z.of_nat (length data) < 2^32 →
  inbound s = nsBuildData ns data HELLO ++ rest →
  let r := handleMsg ns sid in
  (writable s = true →
     r.2 = Continue
     ∧ streams r.1 !! sid
       = Some (with_outbound (with_inbound s rest)
                 (outbound s ++ nsBuildData ns OK OK))
     ∧ stream (node r.1) = <[RemoteMultiaddr s := sid]> (stream (node ns))
     ∧ conn (node r.1) = <[RemoteMultiaddr s := S_OK]> (conn (node ns))
     ∧ routeTable (node r.1)
       = kbucket.Update (RemotePeer s) (routeTable (node ns))
     ∧ peerstore (node r.1) = peerstore (node ns))
  ∧ (writable s = false →
       r = (setStream ns sid (with_inbound s rest), BreakHandleMsg)).
Proof.
  intros Hs Hc Hdata Hin r. unfold r.
  rewrite (handleMsg_frame ns sid s HELLO data rest Hs Hc) by
    (try exact Hdata; try exact Hin; try (simpl; lia);
     apply (bool_decide_unpack _); vm_compute; exact I).
  unfold dispatch. rewrite bool_decide_eq_true_2 by reflexivity.
  unfold writeTo.
  change (streams (setStream ns sid (with_inbound s rest)))
    with (<[sid := with_inbound s rest]> (streams ns)).
  rewrite lookup_insert_eq. simpl. unfold Write. simpl.
  split; intros Hw; rewrite Hw; simpl; [|reflexivity].
  split; [reflexivity|]. split.
  { rewrite insert_insert_eq, lookup_insert_eq. reflexivity. }
  repeat split; reflexivity.
Qed.

(** X6: an OK frame whose payload is the two bytes [ok] records the stream
    as the send handle of the remote address, marks the address connected
    and puts the remote peer to the front of the route table, without
    writing anything; with any other payload the loop ends and the node is
    as before: no [Bye] is run. *)
Theorem OK_registers (ns : NetService) (sid : nat) (s : Stream)
    (data rest : list byte) :
  streams ns !! sid = Some s →
  0 <= chainID (node ns) < 2^32 →
  Z.of_nat (length data) < 2^32 →
  inbound s = nsBuildData ns data OK ++ rest →
  let r := handleMsg ns sid in
  streams r.1 = <[sid := with_inbound s rest]> (streams ns)
  ∧ (data = OK →
       r.2 = Continue
       ∧ stream (node r.1) = <[RemoteMultiaddr s := sid]> (stream (node ns))
       ∧ conn (node r.1) = <[RemoteMultiaddr s := S_OK]> (conn (node ns))
       ∧ routeTable (node r.1)
         = kbucket.Update (RemotePeer s) (routeTable (node ns))
       ∧ peerstore (node r.1) = peerstore (node ns))
  ∧ (data ≠ OK → r.2 = BreakHandleMsg ∧ node r.1 = node ns).
Proof.
  intros Hs Hc Hdata Hin r. unfold r.
  rewrite (handleMsg_frame ns sid s OK data rest Hs Hc) by
    (try exact Hdata; try exact Hin; try (simpl; lia);
     apply (bool_decide_unpack _); vm_compute; exact I).
  unfold dispatch.
  rewrite (bool_decide_eq_false_2 (OK = HELLO)) by discriminate.
  rewrite (bool_decide_eq_true_2 (OK = OK)) by reflexivity.
  destruct (decide (data = OK)) as [->|Hne].
  - rewrite bool_decide_eq_true_2 by reflexivity. simpl.
    split; [reflexivity|]. split; [|congruence].
    intros _. repeat split; reflexivity.
  - rewrite bool_decide_eq_false_2 by exact Hne. simpl.
    split; [reflexivity|]. split; [congruence|]. intros _. split; reflexivity.
Qed.

(** X7: a BYE frame, and a frame under any name the switch does not list,
    is read and dropped: the loop goes on and nothing but the stream's read
    position has changed. *)
Theorem unlisted_name_dropped (ns : NetService) (sid : nat) (s : Stream)
    (name data rest : list byte) :
  streams ns !! sid = Some s →
  0 <= chainID (node ns) < 2^32 →
  (length name ≤ 11)%nat → x00 ∉ name →
  Z.of_nat (length data) < 2^32 →
  inbound s = nsBuildData ns data name ++ rest →
  name ∉ [HELLO; OK; NEWBLOCK; SYNCROUTE; SYNCROUTEREPLY] →
  handleMsg ns sid = (setStream ns sid (with_inbound s rest), Continue).
Proof.
  intros Hs Hc Hlen Hname Hdata Hin Hnot.
  rewrite (handleMsg_frame ns sid s name data rest Hs Hc Hlen Hname Hdata Hin).
  unfold dispatch.
  repeat (apply not_elem_of_cons in Hnot as [? Hnot]).
  rewrite (bool_decide_eq_false_2 (name = HELLO)) by assumption.
  rewrite (bool_decide_eq_false_2 (name = OK)) by assumption.
  destruct (bool_decide (name = BYE)); [reflexivity|].
  rewrite (bool_decide_eq_false_2 (name = NEWBLOCK)) by assumption.
  rewrite (bool_decide_eq_false_2 (name = SYNCROUTE)) by assumption.
  rewrite (bool_decide_eq_false_2 (name = SYNCROUTEREPLY)) by assumption.
  reflexivity.
Qed.

(** X8: a NEWBLOCK frame whose payload decodes is handed to the dispatcher
    as one message under the name [newblock], after the messages handed on
    before; the node is as before and the loop goes on. *)
Theorem NEWBLOCK_delivered (ns : NetService) (sid : nat) (s : Stream)
    (data rest : list byte) (pb : pbBlock) (block : Block) :
  streams ns !! sid = Some s →
  0 <= chainID (node ns) < 2^32 →
  Z.of_nat (length data) < 2^32 →
  inbound s = nsBuildData ns data NEWBLOCK ++ rest →
  proto_Unmarshal data = (pb, false) →
  Block_FromProto pb = (block, false) →
  handleMsg ns sid =
  (with_dispatcher (setStream ns sid (with_inbound s rest))
     (dispatcher ns ++ [(NEWBLOCK, block)]), Continue).
Proof.
  intros Hs Hc Hdata Hin Hpb Hblock.
  rewrite (handleMsg_frame ns sid s NEWBLOCK data rest Hs Hc) by
    (try exact Hdata; try exact Hin; try (simpl; lia);
     apply (bool_decide_unpack _); vm_compute; exact I).
  unfold dispatch.
  rewrite (bool_decide_eq_false_2 (NEWBLOCK = HELLO)) by discriminate.
  rewrite (bool_decide_eq_false_2 (NEWBLOCK = OK)) by discriminate.
  rewrite (bool_decide_eq_false_2 (NEWBLOCK = BYE)) by discriminate.
  rewrite (bool_decide_eq_true_2 (NEWBLOCK = NEWBLOCK)) by reflexivity.
  unfold newblock. rewrite Hpb. unfold newblockFromProto. rewrite Hblock.
  reflexivity.
Qed.

End Handler.

Section Concrete.
#[local] Existing Instance Scenario.toy.

Lemma chainA_range : 0 <= chainID (node (Scenario.serviceA [])) < 2^32.
Proof. change (0 <= 7 < 2^32). lia. Qed.

(** Peer B says HELLO to node A. *)
Lemma HELLO_registers_witness :
  let r := handleMsg (Scenario.serviceA (buildData 7 x01 HELLO HELLO)) 0 in
  r.2 = Continue
  ∧ routeTable (node r.1) = ["QmNodeB"]
  ∧ conn (node r.1) !! "/ip4/10.0.0.2/tcp/51413" = Some S_OK
  ∧ stream (node r.1) !! "/ip4/10.0.0.2/tcp/51413" = Some 0%nat.
Proof.
  destruct (HELLO_registers (Scenario.serviceA (buildData 7 x01 HELLO HELLO))
              0%nat (Scenario.fromB (buildData 7 x01 HELLO HELLO)) HELLO []
              eq_refl chainA_range) as [Hok _].
  - simpl. lia.
  - symmetry. apply app_nil_r.
  - destruct (Hok eq_refl) as (Hf & _ & Hst & Hconn & Hrt & _).
    cbv zeta. split; [exact Hf|]. split; [rewrite Hrt; reflexivity|].
    split; [rewrite Hconn|rewrite Hst]; apply lookup_insert_eq.
Defined.

(** Peer B answers OK to node A. *)
Lemma OK_registers_witness :
  let r := handleMsg (Scenario.serviceA (buildData 7 x01 OK OK)) 0 in
  r.2 = Continue ∧ routeTable (node r.1) = ["QmNodeB"].
Proof.
  destruct (OK_registers (Scenario.serviceA (buildData 7 x01 OK OK))
              0%nat (Scenario.fromB (buildData 7 x01 OK OK)) OK []
              eq_refl chainA_range) as (_ & Hok & _).
  - simpl. lia.
  - symmetry. apply app_nil_r.
  - destruct (Hok eq_refl) as (Hf & _ & _ & Hrt & _).
    cbv zeta. split; [exact Hf|rewrite Hrt; reflexivity].
Defined.

(** A frame named [ping], which the switch does not list. *)
Lemma unlisted_name_dropped_witness :
  handleMsg (Scenario.serviceA (buildData 7 x01 OK (gostring "ping"))) 0
  = (setStream (Scenario.serviceA (buildData 7 x01 OK (gostring "ping"))) 0
       (Scenario.fromB []), Continue).
Proof.
  apply (unlisted_name_dropped
           (Scenario.serviceA (buildData 7 x01 OK (gostring "ping"))) 0%nat
           (Scenario.fromB (buildData 7 x01 OK (gostring "ping")))
           (gostring "ping") OK [] eq_refl chainA_range).
  - simpl. lia.
  - apply (bool_decide_unpack _). vm_compute. exact I.
  - simpl. lia.
  - symmetry. apply app_nil_r.
  - apply (bool_decide_unpack _). vm_compute. exact I.
Defined.

(** The block of the one byte [*] arrives at node A. *)
Lemma NEWBLOCK_delivered_witness :
  dispatcher
    (handleMsg (Scenario.serviceA (buildData 7 x01 [x0a; x01; x2a] NEWBLOCK)) 0).1
  = [(NEWBLOCK, [x2a] : Block)].
Proof.
  rewrite (NEWBLOCK_delivered
             (Scenario.serviceA (buildData 7 x01 [x0a; x01; x2a] NEWBLOCK))
             0%nat (Scenario.fromB (buildData 7 x01 [x0a; x01; x2a] NEWBLOCK))
             [x0a; x01; x2a] [] [x2a] [x2a] eq_refl chainA_range).
  - reflexivity.
  - simpl. lia.
  - symmetry. apply app_nil_r.
  - reflexivity.
  - reflexivity.
Defined.

End Concrete.

(** ** Bye *)

Lemma fold_set1_zero (addrs : list string) (l : list (string * Z)) :
  fold_left (peerstore.set1 0) addrs l = filter (λ e, e.1 ∉ addrs) l.
Proof.
  revert l. induction addrs as [|a addrs IH]; intros l; simpl.
  - symmetry. induction l as [|e l IHl]; [reflexivity|].
    rewrite filter_cons_True by apply not_elem_of_nil. f_equal. exact IHl.
  - rewrite IH, set1_zero, list_filter_filter.
    apply list_filter_iff. intros e. rewrite not_elem_of_cons. tauto.
Qed.

Lemma filter_idemp {A} (P : A → Prop) `{!∀ x, Decision (P x)} (l : list A) :
  filter P (filter P l) = filter P l.
Proof. apply list_filter_filter_l. tauto. Qed.

Lemma SetAddrs_zero (ps : gmap string (list (string * Z))) (p : string)
    (addrs : list string) :
  peerstore.SetAddrs p addrs 0 ps
  = <[p := filter (λ e, e.1 ∉ addrs) (default [] (ps !! p))]> ps.
Proof. unfold peerstore.SetAddrs. rewrite fold_set1_zero. reflexivity. Qed.

(** X9: [Bye] is idempotent: run again on the node it left, with the same
    peer and addresses, it changes nothing. *)
Theorem Bye_idempotent (n n1 : Node) (pid : string) (addrs : list string) :
  Bye n pid addrs = Some n1 → Bye n1 pid addrs = Some n1.
Proof.
  unfold Bye. destruct addrs as [|a0 addrs]; [discriminate|].
  intros [= <-]. cbn [with_conn with_routeTable with_peerstore conn
    routeTable peerstore id chainID version maxSyncNodes stream].
  f_equal. unfold with_conn, with_routeTable, with_peerstore.
  cbn [conn routeTable peerstore id chainID version maxSyncNodes stream].
  f_equal.
  - apply insert_insert_eq.
  - unfold kbucket.Remove. apply filter_idemp.
  - rewrite !SetAddrs_zero, lookup_insert_eq, insert_insert_eq.
    f_equal. apply filter_idemp.
Qed.

Lemma Bye_idempotent_witness :
  ∃ n1, Bye Scenario.nodeAknowsC "QmNodeC" ["/ip4/10.0.0.3/tcp/51413"] = Some n1
        ∧ Bye n1 "QmNodeC" ["/ip4/10.0.0.3/tcp/51413"] = Some n1.
Proof.
  eexists. split; [reflexivity|].
  apply (Bye_idempotent Scenario.nodeAknowsC). reflexivity.
Defined.

(** X10: [Bye] touches the given peer and the first given address only.  The
    address-book entries of other peers and the statuses of other addresses
    are as before; of the peer's own addresses exactly the given ones are
    gone; the route table has lost the peer and nobody else, in the same
    order; the first address is marked not connected.  The send handles are
    all still recorded, the one of the address that was said bye to with
    them.  Without an address [Bye] panics. *)
Theorem Bye_local (n n1 : Node) (pid : string) (a0 : string)
    (addrs : list string) :
  Bye n pid (a0 :: addrs) = Some n1 →
  (∀ q, q ≠ pid → peerstore n1 !! q = peerstore n !! q)
  ∧ peerstore.AddrsOf (peerstore n1) pid
    = filter (λ a, a ∉ a0 :: addrs) (peerstore.AddrsOf (peerstore n) pid)
  ∧ routeTable n1 = filter (λ q, q ≠ pid) (routeTable n)
  ∧ conn n1 !! a0 = Some S_NC
  ∧ (∀ a, a ≠ a0 → conn n1 !! a = conn n !! a)
  ∧ stream n1 = stream n
  ∧ id n1 = id n ∧ chainID n1 = chainID n ∧ version n1 = version n
  ∧ Bye n pid [] = None.
Proof.
  unfold Bye. intros [= <-].
  cbn [with_conn with_routeTable with_peerstore conn routeTable peerstore id
       chainID version maxSyncNodes stream].
  split.
  { intros q Hq. unfold peerstore.SetAddrs. apply lookup_insert_ne. congruence. }
  split.
  { rewrite SetAddrs_zero. unfold peerstore.AddrsOf.
    rewrite lookup_insert_eq. cbn [default].
    generalize (default [] (peerstore n !! pid)). intros l.
    induction l as [|[a t] l IH]; [reflexivity|]. simpl.
    destruct (decide (a ∉ a0 :: addrs)) as [Hin|Hin].
    - rewrite !filter_cons_True by exact Hin. simpl. f_equal. exact IH.
    - rewrite !filter_cons_False by exact Hin. exact IH. }
  split; [reflexivity|].
  split; [apply lookup_insert_eq|].
  split; [intros a Ha; apply lookup_insert_ne; congruence|].
  repeat split; reflexivity.
Qed.

Lemma Bye_local_witness :
  ∃ n1, Bye Scenario.nodeAknowsC "QmNodeC" ["/ip4/10.0.0.3/tcp/51413"] = Some n1
        ∧ peerstore.AddrsOf (peerstore n1) "QmNodeC" = []
        ∧ conn n1 !! "/ip4/10.0.0.3/tcp/51413" = Some S_NC.
Proof.
  eexists. split; [reflexivity|].
  destruct (Bye_local Scenario.nodeAknowsC _ "QmNodeC"
              "/ip4/10.0.0.3/tcp/51413" [] eq_refl)
    as (_ & Haddrs & _ & Hconn & _).
  split; [rewrite Haddrs; reflexivity|exact Hconn].
Defined.

(** ** SendMsg and SyncRoutes *)

Section Handler.
Context `{External}.


End Handler.

Section Concrete.
#[local] Existing Instance Scenario.toy.


End Concrete.

(** ** Route discovery *)

(** X12: the peer list of a SYNCROUTE answer holds, in the order of the
    nearest peers, the peer-info of each of them that has an address in the
    address book, and of no other: a peer without address is left out. *)
Theorem syncRoutePeerList_spec (ps : gmap string (list (string * Z)))
    (peers : list string) :
  syncRoutePeerList ps peers
  = peerstore.GetPeerInfo ps
      <$> filter (λ p, peerstore.AddrsOf ps p ≠ []) peers
  ∧ (∀ c, c ∈ syncRoutePeerList ps peers →
       peerstore.Addrs c ≠ [] ∧ peerstore.ID c ∈ peers
       ∧ peerstore.Addrs c = peerstore.AddrsOf ps (peerstore.ID c))
  ∧ (length (syncRoutePeerList ps peers) ≤ length peers)%nat.
Proof.
  assert (Heq : syncRoutePeerList ps peers
                = peerstore.GetPeerInfo ps
                    <$> filter (λ p, peerstore.AddrsOf ps p ≠ []) peers).
  { induction peers as [|p peers IH]; [reflexivity|]. simpl.
    destruct (decide (peerstore.AddrsOf ps p = [])) as [He|Hne].
    - rewrite bool_decide_eq_true_2 by (rewrite He; reflexivity).
      rewrite filter_cons_False by (intros Hf; apply Hf, He). exact IH.
    - rewrite bool_decide_eq_false_2
        by (intros Hl; apply Hne; destruct (peerstore.AddrsOf ps p);
            [reflexivity|discriminate]).
      rewrite filter_cons_True by exact Hne. simpl. f_equal. exact IH. }
  split; [exact Heq|]. split.
  - intros c Hc. rewrite Heq in Hc.
    apply list_elem_of_fmap in Hc as (p & -> & Hp).
    apply list_elem_of_filter in Hp as [Hne Hp]. simpl. auto.
  - rewrite Heq, length_fmap. apply length_filter.
Qed.

Section Handler.
Context `{External}.


(** The loop over the candidates, one candidate on. *)
Lemma syncRouteReply_skip (ns : NetService) (c : peerstore.PeerInfo)
    (rest : list peerstore.PeerInfo) :
  peerstore.ID c ∈ routeTable (node ns) →
  syncRouteReply ns (c :: rest) = syncRouteReply ns rest.
Proof.
  intros Hin. simpl.
  rewrite (bool_decide_eq_true_2 (is_Some _)) by (apply Find_is_Some, Hin).
  reflexivity.
Qed.

Lemma syncRouteReply_verified (ns : NetService) (c : peerstore.PeerInfo)
    (rest : list peerstore.PeerInfo) (a0 : string) (more : list string)
    (ns2 : NetService) :
  peerstore.ID c ∉ routeTable (node ns) →
  peerstore.Addrs c = a0 :: more →
  Hello (with_node ns
           (with_peerstore (node ns)
              (peerstore.AddAddr (peerstore.ID c) a0 peerstore.TempAddrTTL
                 (peerstore (node ns))))) (peerstore.ID c) = (ns2, None) →
  syncRouteReply ns (c :: rest) =
  syncRouteReply
    (with_node ns2
       (with_routeTable
          (with_peerstore (node ns2)
             (peerstore.AddAddr (peerstore.ID c) a0 peerstore.PermanentAddrTTL
                (peerstore (node ns2))))
          (kbucket.Update (peerstore.ID c) (routeTable (node ns2))))) rest.
Proof.
  intros Hnot Haddrs Hhello. simpl.
  rewrite (bool_decide_eq_false_2 (is_Some _))
    by (rewrite Find_is_Some; exact Hnot).
  rewrite Haddrs.
  rewrite (bool_decide_eq_false_2 (length _ = _)) by discriminate.
  simpl. rewrite Hhello. reflexivity.
Qed.

(** X14: a candidate named twice in a SYNCROUTEREPLY is verified once when
    its handshake succeeds: it is listed in the route table by then, and
    its later mention is skipped. *)
Theorem syncRouteReply_twice (ns : NetService) (c : peerstore.PeerInfo)
    (rest : list peerstore.PeerInfo) (a0 : string) (more : list string) :
  peerstore.ID c ∉ routeTable (node ns) →
  peerstore.Addrs c = a0 :: more →
  (Hello (with_node ns
            (with_peerstore (node ns)
               (peerstore.AddAddr (peerstore.ID c) a0 peerstore.TempAddrTTL
                  (peerstore (node ns))))) (peerstore.ID c)).2 = None →
  syncRouteReply ns (c :: c :: rest) = syncRouteReply ns (c :: rest).
Proof.
  intros Hnot Haddrs Hok.
  destruct (Hello _ _) as [ns2 e] eqn:Hhello. simpl in Hok. subst e.
  rewrite (syncRouteReply_verified ns c (c :: rest) a0 more ns2 Hnot Haddrs Hhello).
  rewrite (syncRouteReply_verified ns c rest a0 more ns2 Hnot Haddrs Hhello).
  apply syncRouteReply_skip. simpl. unfold kbucket.Update. left.
Qed.

End Handler.

Section Concrete.
#[local] Existing Instance Scenario.toy.

(** Candidate C, reachable and named twice. *)
Lemma syncRouteReply_twice_witness :
  syncRouteReply (Scenario.dialing true) [Scenario.candidateC; Scenario.candidateC]
  = syncRouteReply (Scenario.dialing true) [Scenario.candidateC].
Proof.
  apply (syncRouteReply_twice (Scenario.dialing true) Scenario.candidateC []
           "/ip4/10.0.0.3/tcp/51413" []).
  - apply (bool_decide_unpack _). vm_compute. exact I.
  - reflexivity.
  - vm_compute. reflexivity.
Defined.

End Concrete.

(** ** nf/nvm: module identifiers *)

Module nvm_facts.
Import nvm.

Example reformat_1 :
  reformatModuleID (gostring "./a//b/../c/.") = gostring "a/c".
Proof. vm_compute. reflexivity. Qed.
Example reformat_2 :
  reformatModuleID (gostring "../../a") = gostring "a".
Proof. vm_compute. reflexivity. Qed.
Example reformat_3 :
  reformatModuleID (gostring "/x/../../y") = gostring "../y".
Proof. vm_compute. reflexivity. Qed.

Lemma Split_nonempty (s : list byte) : Split s ≠ [].
Proof.
  induction s as [|b s IH]; simpl; [discriminate|].
  destruct (bool_decide (b = x2f)); [discriminate|].
  destruct (Split s); discriminate.
Qed.

Lemma Split_no_slash (s p : list byte) : p ∈ Split s → x2f ∉ p.
Proof.
  revert p. induction s as [|b s IH]; intros p; simpl.
  - intros Hp. apply list_elem_of_singleton in Hp as ->. apply not_elem_of_nil.
  - destruct (decide (b = x2f)) as [->|Hne].
    + rewrite bool_decide_eq_true_2 by reflexivity.
      intros Hp. apply elem_of_cons in Hp as [->|Hp];
        [apply not_elem_of_nil|apply IH, Hp].
    + rewrite bool_decide_eq_false_2 by exact Hne.
      destruct (Split s) as [|q qs] eqn:E; [destruct (Split_nonempty s E)|].
      intros Hp. apply elem_of_cons in Hp as [->|Hp].
      * apply not_elem_of_cons. split; [congruence|]. apply IH. left.
      * apply IH. right. exact Hp.
Qed.

(** Joining pieces that hold no slash and splitting again gives the pieces. *)
Lemma Split_Join (paths : list (list byte)) :
  paths ≠ [] → Forall (λ p, x2f ∉ p) paths → Split (Join paths) = paths.
Proof.
  induction paths as [|p ps IH]; intros Hne Hall; [congruence|].
  apply Forall_cons in Hall as [Hp Hps].
  assert (Hone : ∀ tl, Split tl ≠ [] →
            Split (p ++ x2f :: tl) = p :: Split tl).
  { intros tl _. clear IH Hne. induction p as [|b p IHp]; simpl.
    - reflexivity.
    - apply not_elem_of_cons in Hp as [Hb Hp].
      rewrite bool_decide_eq_false_2 by congruence.
      rewrite (IHp Hp). reflexivity. }
  destruct ps as [|q qs].
  - simpl. clear IH Hne Hone. induction p as [|b p IHp]; [reflexivity|]. simpl.
    apply not_elem_of_cons in Hp as [Hb Hp].
    rewrite bool_decide_eq_false_2 by congruence.
    rewrite (IHp Hp). reflexivity.
  - change (Join (p :: q :: qs)) with (p ++ x2f :: Join (q :: qs)).
    rewrite Hone by apply Split_nonempty.
    rewrite IH by (try discriminate; exact Hps). reflexivity.
Qed.

Lemma kept_nil : kept [].
Proof. split; [constructor|]. intros i. discriminate. Qed.

Lemma kept_take (paths : list (list byte)) (k : nat) :
  kept paths → kept (take k paths).
Proof.
  intros [Hall Hdd]. split.
  - apply Forall_take, Hall.
  - intros i Hi. apply (Hdd i).
    destruct (decide (S i < k)%nat).
    + rewrite lookup_take_lt in Hi by lia. exact Hi.
    + rewrite lookup_take_ge in Hi by lia. discriminate.
Qed.

Lemma kept_step (paths : list (list byte)) (p : list byte) :
  kept paths → x2f ∉ p → kept (reformatStep paths p).
Proof.
  intros Hk Hp. unfold reformatStep.
  destruct (decide (length p = 0%nat)) as [Hl|Hl].
  { rewrite (bool_decide_eq_true_2 _ Hl). exact Hk. }
  rewrite (bool_decide_eq_false_2 _ Hl). simpl.
  destruct (decide (p = gostring ".")) as [Hd|Hd].
  { rewrite (bool_decide_eq_true_2 _ Hd). exact Hk. }
  rewrite (bool_decide_eq_false_2 _ Hd).
  assert (Hpne : p ≠ []) by (intros ->; apply Hl; reflexivity).
  destruct (decide (p = gostring "..")) as [Hdd|Hdd];
    [rewrite (bool_decide_eq_true_2 _ Hdd)|rewrite (bool_decide_eq_false_2 _ Hdd)];
    simpl.
  - destruct (decide (0 < length paths)%nat) as [Hpos|Hpos].
    + rewrite (bool_decide_eq_true_2 _ Hpos). apply kept_take, Hk.
    + rewrite (bool_decide_eq_false_2 _ Hpos).
      destruct paths; [|simpl in Hpos; lia]. simpl.
      split; [repeat constructor; assumption|]. intros i. discriminate.
  - destruct Hk as [Hall Hi]. split.
    + apply Forall_app. split; [exact Hall|]. repeat constructor; assumption.
    + intros i Hl'. apply lookup_app_Some in Hl' as [Hl'|[_ Hl']].
      * exact (Hi i Hl').
      * apply list_lookup_singleton_Some in Hl' as [_ Heq]. congruence.
Qed.

Lemma kept_fold (l paths : list (list byte)) :
  kept paths → Forall (λ p, x2f ∉ p) l → kept (fold_left reformatStep l paths).
Proof.
  revert paths. induction l as [|p l IH]; intros paths Hk Hl; [exact Hk|].
  apply Forall_cons in Hl as [Hp Hl]. simpl.
  apply IH; [apply kept_step; assumption|exact Hl].
Qed.

(** On kept components the loop keeps every one of them. *)
Lemma fold_kept (l acc : list (list byte)) :
  kept (acc ++ l) → fold_left reformatStep l acc = acc ++ l.
Proof.
  revert acc. induction l as [|p l IH]; intros acc Hk; simpl.
  - symmetry. apply app_nil_r.
  - assert (Hstep : reformatStep acc p = acc ++ [p]).
    { destruct Hk as [Hall Hdd].
      apply Forall_app in Hall as [_ Hall].
      apply Forall_cons in Hall as [(Hne & Hd & _) _].
      unfold reformatStep.
      rewrite (bool_decide_eq_false_2 (length p = 0%nat))
        by (destruct p; [congruence|discriminate]).
      rewrite (bool_decide_eq_false_2 _ Hd). simpl.
      destruct (decide (p = gostring "..")) as [->|Hn].
      - destruct acc as [|a acc]; [reflexivity|]. exfalso.
        apply (Hdd (length acc)). simpl.
        rewrite lookup_app_r by lia. rewrite Nat.sub_diag. reflexivity.
      - rewrite (bool_decide_eq_false_2 _ Hn). reflexivity. }
    rewrite Hstep, IH by (rewrite <- app_assoc; exact Hk).
    rewrite <- app_assoc. reflexivity.
Qed.

Lemma reformat_paths (id : list byte) :
  kept (fold_left reformatStep (Split id) []).
Proof.
  apply kept_fold; [apply kept_nil|].
  apply Forall_forall. intros p Hp. exact (Split_no_slash id p Hp).
Qed.

Lemma reformatModuleID_fixed (id : list byte) :
  reformatModuleID (reformatModuleID id) = reformatModuleID id.
Proof.
  pose proof (reformat_paths id) as Hk.
  assert (Hid : reformatModuleID id
                = Join (fold_left reformatStep (Split id) [])) by reflexivity.
  rewrite Hid. set (paths := fold_left reformatStep (Split id) []) in *.
  destruct (decide (paths = [])) as [->|Hne]; [reflexivity|].
  unfold reformatModuleID. rewrite Split_Join.
  - rewrite (fold_kept paths []) by exact Hk. reflexivity.
  - exact Hne.
  - destruct Hk as [Hall _]. eapply Forall_impl; [exact Hall|].
    intros p (_ & _ & Hp). exact Hp.
Qed.

(** X15: [reformatModuleID] is idempotent: an identifier it returned is
    returned unchanged. *)
Theorem reformatModuleID_idempotent (id : list byte) :
  reformatModuleID (reformatModuleID id) = reformatModuleID id.
Proof. apply reformatModuleID_fixed. Qed.

(** X16: the identifier [reformatModuleID] returns is empty, or it splits at
    its slashes into components none of which is empty or [.], with [..] in
    the first place or nowhere; so it neither begins nor ends with a slash
    and holds no two slashes in a row. *)
Theorem reformatModuleID_components (id : list byte) :
  reformatModuleID id = []
  ∨ (Forall (λ p, p ≠ [] ∧ p ≠ gostring ".") (Split (reformatModuleID id))
     ∧ (∀ i, Split (reformatModuleID id) !! S i ≠ Some (gostring ".."))
     ∧ Join (Split (reformatModuleID id)) = reformatModuleID id).
Proof.
  unfold reformatModuleID.
  pose proof (reformat_paths id) as Hk.
  set (paths := fold_left reformatStep (Split id) []) in *.
  destruct (decide (paths = [])) as [->|Hne]; [left; reflexivity|right].
  assert (Hs : Split (Join paths) = paths).
  { apply Split_Join; [exact Hne|]. destruct Hk as [Hall _].
    eapply Forall_impl; [exact Hall|]. intros p (_ & _ & Hp). exact Hp. }
  rewrite Hs. destruct Hk as [Hall Hdd].
  split; [|split; [exact Hdd|reflexivity]].
  eapply Forall_impl; [exact Hall|]. intros p (H1 & H2 & _). split; assumption.
Qed.

(** X17: the identifier of a module made by [NewModule] is in the form
    [reformatModuleID] returns; a module that was added is found under its
    identifier, replaces a module that had the same identifier, and leaves
    the modules under other identifiers as they were. *)
Theorem NewModule_Add_Get (ms : gmap (list byte) Module') (i src : list byte)
    (off : Z) :
  let m := NewModule i src off in
  reformatModuleID (id m) = id m
  ∧ source m = src ∧ lineOffset m = off
  ∧ Get (Add ms m) (id m) = Some m
  ∧ (∀ k, k ≠ id m → Get (Add ms m) k = Get ms k)
  ∧ Get NewModules (id m) = None.
Proof.
  intros m. split; [apply reformatModuleID_fixed|].
  split; [reflexivity|]. split; [reflexivity|].
  split; [apply lookup_insert_eq|].
  split; [intros k Hk; apply lookup_insert_ne; congruence|apply lookup_empty].
Qed.

End nvm_facts.

(** ** Frames of another chain or version *)



Section Concrete.
#[local] Existing Instance Scenario.toy.


End Concrete.
